(** * StudySnap front end: the camera screen's image pipeline and the API client

    A shallow embedding of

    - [src/screens/image/CameraScreen.js]: the image-preparation routine
      [processImage], the operation guards, the safety timer and the upload
      handler;
    - [src/services/api/client.js]: the request and response interceptors of
      the axios instance.

    Modelling conventions.

    - A byte count, a pixel count or an identifier held in an optional
      field is an [option positive].  [None] stands for every falsy value
      of the field ([undefined], [null], [0]): the code only ever tests such
      a field for truthiness or compares it with a positive constant, so it
      cannot tell these values apart, and counts are never negative.
    - Computed numbers are integers ([Z]), and [Math.round] is
      [floor (x + 1/2)] of the exact value of its argument.  The quotient
      [(h * 1200) / w] is taken on exact rationals ([Q]).  The product
      [w * h * quality * 0.15] is evaluated as the code evaluates it, in
      binary64 arithmetic: a double is the rational it stands for, a
      literal is the double nearest to it, and each multiplication is
      rounded to the nearest double, a tie going to the even mantissa
      ([Double]); the exponent range is not modelled, the numbers of this
      file staying far from it.
    - [useState] cells and [useRef] cells are fields of one record,
      [Screen].  A setter takes effect at once: a handler always runs on the
      latest committed state.
    - The JavaScript runtime's table of pending timers and the requests
      handed to the network layer are fields of the same record, and so are
      the alerts shown, the calls made to the image manipulator and the
      navigation actions issued; [console.log] is not modelled.
    - An [async] handler is cut at each [await]: the part before the
      [await] and the part after it are two functions, and the second one
      runs on whatever the screen is when the awaited promise settles. *)

From Stdlib Require Import ZArith QArith Qround Qpower Lia Bool Ascii String.
From stdpp Require Import gmap strings list fin_maps.

Set Default Proof Using "Type".
Local Open Scope Z_scope.

(** ** JavaScript values *)

Module JS.

(** Truthiness of an optional count. *)
Definition truthy (x : option positive) : bool :=
  match x with
  | Some _ => true
  | None => false
  end.

(** Truthiness of an optional string: [undefined] and [''] are falsy. *)
Definition truthyStr (x : option string) : bool :=
  match x with
  | Some s => negb (String.eqb s "")
  | None => false
  end.


(** The field a computed number is stored as. *)
Definition ofNumber (n : Z) : option positive :=
  match n with
  | Z.pos p => Some p
  | _ => None
  end.

(** [x < k] and [x > k] against a positive constant.  The code reaches
    [x < k] only behind [x &&], and [x > k] is false for a falsy [x]. *)
Definition lt (x : option positive) (k : Z) : bool :=
  match x with
  | Some n => Z.pos n <? k
  | None => false
  end.

Definition gt (x : option positive) (k : Z) : bool :=
  match x with
  | Some n => k <? Z.pos n
  | None => false
  end.

(** [x || d] *)
Definition orElse (x : option positive) (d : Z) : Z :=
  match x with
  | Some n => Z.pos n
  | None => d
  end.

(** [Math.round]: the nearest integer, a tie going up. *)
Definition Math_round (x : Q) : Z := Qfloor (x + 0.5)%Q.

End JS.

(** ** Binary64 arithmetic *)

(** A finite double is the rational number it stands for.  Rounding a
    positive rational [x] to the nearest double: with [e] the integer part
    of its binary logarithm, the doubles around [x] are the multiples of
    [2 ^ (e - 52)], and the multiple taken is the nearest one, a tie going
    to the even multiple. *)
Module Double.

Definition pow2 (z : Z) : Q := (2 ^ z)%Q.

(** The integer [e] with [2 ^ e <= x < 2 ^ (e + 1)], for a positive [x]:
    the difference of the bit lengths of numerator and denominator, or one
    less. *)
Definition ilog2 (x : Q) : Z :=
  let e0 := Z.log2 (Qnum x) - Z.log2 (Z.pos (Qden x)) in
  if Qle_bool (pow2 e0) x then e0 else e0 - 1.

(** The nearest integer, a tie going to the even one. *)
Definition roundHalfEven (k : Q) : Z :=
  let f := Qfloor k in
  match (k - inject_Z f ?= 1 # 2)%Q with
  | Lt => f
  | Gt => f + 1
  | Eq => if Z.even f then f else f + 1
  end.

Definition nearest (x : Q) : Q :=
  let ulp := pow2 (ilog2 x - 52) in
  (inject_Z (roundHalfEven (x / ulp)) * ulp)%Q.

(** The double nearest to a rational: the value of a numeric literal, and
    the rounding every operation ends with. *)
Definition ofQ (x : Q) : Q :=
  match Qnum x with
  | Z0 => 0%Q
  | Z.pos _ => nearest x
  | Z.neg _ => (- nearest (- x))%Q
  end.

(** [x * y] on doubles. *)
Definition mul (x y : Q) : Q := ofQ (x * y).


End Double.

(** ** Assets and picker results *)

Record Asset : Type := mkAsset {
  uri : option string;
  fileSize : option positive;
  width : option positive;
  height : option positive;
}.

(** What the picker hands back: [canceled], the [assets] array when there is
    one, and the fields the result object carries itself (the older picker
    format, where the result is the asset). *)
Record ImageResult : Type := mkImageResult {
  canceled : bool;
  assets : option (list Asset);
  self : Asset;
}.

(** ** Constants of the camera screen *)

Definition MAX_IMAGE_SIZE : Z := 1900000.
Definition MAX_DIMENSION : Z := 1200.
Definition SAFETY_TIMEOUT : Z := 5000.

(** ** The arithmetic of [processImage] *)

(** [imageAsset.fileSize && imageAsset.fileSize < MAX_IMAGE_SIZE] *)
Definition smallEnough (imageAsset : Asset) : bool :=
  JS.truthy (fileSize imageAsset) && JS.lt (fileSize imageAsset) MAX_IMAGE_SIZE.

(** The compression quality tier. *)
Definition qualityFor (size : option positive) : Q :=
  if JS.gt size 5000000 then 0.5%Q
  else if JS.gt size 3000000 then 0.6%Q
  else 0.7%Q.

(** The resize dimensions, [(width, height)]. *)
Definition resizeDimensions (imageAsset : Asset) : Z * Z :=
  let width := JS.orElse (width imageAsset) 1000 in
  let height := JS.orElse (height imageAsset) 1000 in
  if (height <? width) && (MAX_DIMENSION <? width) then
    (MAX_DIMENSION,
     JS.Math_round (inject_Z (height * MAX_DIMENSION) / inject_Z width)%Q)
  else if MAX_DIMENSION <? height then
    (JS.Math_round (inject_Z (width * MAX_DIMENSION) / inject_Z height)%Q,
     MAX_DIMENSION)
  else (width, height).

(** [Math.round(width * height * quality * 0.15)], the three products
    taken from left to right in double arithmetic; [quality] and [0.15]
    are the doubles their literals denote. *)
Definition estimatedSize (width height : Z) (quality : Q) : Z :=
  JS.Math_round
    (Double.mul
       (Double.mul (Double.mul (inject_Z width) (inject_Z height))
          (Double.ofQ quality))
       (Double.ofQ 0.15)).

(** The call made to [ImageManipulator.manipulateAsync]: the source uri, the
    one [resize] action and the [compress] option (the format is always
    JPEG). *)
Record ManipRequest : Type := mkManipRequest {
  m_uri : option string;
  m_width : Z;
  m_height : Z;
  m_compress : Q;
}.

Definition manipRequestFor (imageAsset : Asset) : ManipRequest :=
  let quality := qualityFor (fileSize imageAsset) in
  let '(width, height) := resizeDimensions imageAsset in
  mkManipRequest (uri imageAsset) width height quality.

(** How the awaited manipulation settles. *)
Inductive ManipOutcome : Type :=
| Resolved (manipResult : Asset)
| Rejected (error : string).

(** [if (!manipResult.fileSize) manipResult.fileSize = estimatedSize] *)
Definition withFileSize (req : ManipRequest) (manipResult : Asset) : Asset :=
  if JS.truthy (fileSize manipResult) then manipResult
  else mkAsset (uri manipResult)
               (JS.ofNumber
                  (estimatedSize (m_width req) (m_height req) (m_compress req)))
               (width manipResult) (height manipResult).

(** ** The screen *)

(** The multipart form built by [createImageFormData(capturedImage,
    {folder_id, name})]; its encoding is not modelled. *)
Record FormData : Type := mkFormData {
  form_image : Asset;
  form_folder_id : positive;
  form_name : string;
}.

Inductive NavAction : Type :=
| NavReplace (route : string) (folder : positive) (refresh : bool)
| NavGoBack.

(** [Alert.alert(title, message)] *)
Record Alert : Type := mkAlert {
  alert_title : string;
  alert_message : string;
}.

Record Screen : Type := mkScreen {
  (* useState *)
  capturedImage : option Asset;
  loading : bool;
  processingImage : bool;
  isNavigating : bool;
  (* useRef *)
  uploadingRef : bool;
  navigationTimeoutRef : option positive;
  mountedRef : bool;
  (* route.params *)
  folderId : option positive;
  (* the runtime: pending timers (handle to delay), the next handle,
     whether the last run of the safety effect returned a cleanup *)
  timers : gmap positive Z;
  nextTimer : positive;
  safetyCleanup : bool;
  (* uploads handed to imageApi.uploadImage and not settled yet *)
  requests : gmap positive FormData;
  nextRequest : positive;
  (* what the user and the collaborators have seen so far *)
  alerts : list Alert;
  manipulations : list ManipRequest;
  navigations : list NavAction;
}.

Definition setCapturedImage (v : option Asset) (s : Screen) : Screen :=
  mkScreen v (loading s) (processingImage s) (isNavigating s) (uploadingRef
    s) (navigationTimeoutRef s) (mountedRef s) (folderId s) (timers s)
    (nextTimer s) (safetyCleanup s) (requests s) (nextRequest s) (alerts s)
    (manipulations s) (navigations s).

Definition setLoading (v : bool) (s : Screen) : Screen :=
  mkScreen (capturedImage s) v (processingImage s) (isNavigating s)
    (uploadingRef s) (navigationTimeoutRef s) (mountedRef s) (folderId s)
    (timers s) (nextTimer s) (safetyCleanup s) (requests s) (nextRequest s)
    (alerts s) (manipulations s) (navigations s).

Definition setProcessingImage (v : bool) (s : Screen) : Screen :=
  mkScreen (capturedImage s) (loading s) v (isNavigating s) (uploadingRef s)
    (navigationTimeoutRef s) (mountedRef s) (folderId s) (timers s) (nextTimer
    s) (safetyCleanup s) (requests s) (nextRequest s) (alerts s)
    (manipulations s) (navigations s).

Definition setIsNavigating (v : bool) (s : Screen) : Screen :=
  mkScreen (capturedImage s) (loading s) (processingImage s) v (uploadingRef
    s) (navigationTimeoutRef s) (mountedRef s) (folderId s) (timers s)
    (nextTimer s) (safetyCleanup s) (requests s) (nextRequest s) (alerts s)
    (manipulations s) (navigations s).

Definition setUploadingRef (v : bool) (s : Screen) : Screen :=
  mkScreen (capturedImage s) (loading s) (processingImage s) (isNavigating
    s) v (navigationTimeoutRef s) (mountedRef s) (folderId s) (timers s)
    (nextTimer s) (safetyCleanup s) (requests s) (nextRequest s) (alerts s)
    (manipulations s) (navigations s).

Definition setNavigationTimeoutRef (v : option positive) (s : Screen) : Screen :=
  mkScreen (capturedImage s) (loading s) (processingImage s) (isNavigating
    s) (uploadingRef s) v (mountedRef s) (folderId s) (timers s) (nextTimer s)
    (safetyCleanup s) (requests s) (nextRequest s) (alerts s) (manipulations
    s) (navigations s).

Definition setMountedRef (v : bool) (s : Screen) : Screen :=
  mkScreen (capturedImage s) (loading s) (processingImage s) (isNavigating
    s) (uploadingRef s) (navigationTimeoutRef s) v (folderId s) (timers s)
    (nextTimer s) (safetyCleanup s) (requests s) (nextRequest s) (alerts s)
    (manipulations s) (navigations s).

Definition setTimers (v : gmap positive Z) (s : Screen) : Screen :=
  mkScreen (capturedImage s) (loading s) (processingImage s) (isNavigating
    s) (uploadingRef s) (navigationTimeoutRef s) (mountedRef s) (folderId s) v
    (nextTimer s) (safetyCleanup s) (requests s) (nextRequest s) (alerts s)
    (manipulations s) (navigations s).

Definition setNextTimer (v : positive) (s : Screen) : Screen :=
  mkScreen (capturedImage s) (loading s) (processingImage s) (isNavigating
    s) (uploadingRef s) (navigationTimeoutRef s) (mountedRef s) (folderId s)
    (timers s) v (safetyCleanup s) (requests s) (nextRequest s) (alerts s)
    (manipulations s) (navigations s).

Definition setSafetyCleanup (v : bool) (s : Screen) : Screen :=
  mkScreen (capturedImage s) (loading s) (processingImage s) (isNavigating
    s) (uploadingRef s) (navigationTimeoutRef s) (mountedRef s) (folderId s)
    (timers s) (nextTimer s) v (requests s) (nextRequest s) (alerts s)
    (manipulations s) (navigations s).

Definition setRequests (v : gmap positive FormData) (s : Screen) : Screen :=
  mkScreen (capturedImage s) (loading s) (processingImage s) (isNavigating
    s) (uploadingRef s) (navigationTimeoutRef s) (mountedRef s) (folderId s)
    (timers s) (nextTimer s) (safetyCleanup s) v (nextRequest s) (alerts s)
    (manipulations s) (navigations s).

Definition setNextRequest (v : positive) (s : Screen) : Screen :=
  mkScreen (capturedImage s) (loading s) (processingImage s) (isNavigating
    s) (uploadingRef s) (navigationTimeoutRef s) (mountedRef s) (folderId s)
    (timers s) (nextTimer s) (safetyCleanup s) (requests s) v (alerts s)
    (manipulations s) (navigations s).

Definition setAlerts (v : list Alert) (s : Screen) : Screen :=
  mkScreen (capturedImage s) (loading s) (processingImage s) (isNavigating
    s) (uploadingRef s) (navigationTimeoutRef s) (mountedRef s) (folderId s)
    (timers s) (nextTimer s) (safetyCleanup s) (requests s) (nextRequest s) v
    (manipulations s) (navigations s).

Definition setManipulations (v : list ManipRequest) (s : Screen) : Screen :=
  mkScreen (capturedImage s) (loading s) (processingImage s) (isNavigating
    s) (uploadingRef s) (navigationTimeoutRef s) (mountedRef s) (folderId s)
    (timers s) (nextTimer s) (safetyCleanup s) (requests s) (nextRequest s)
    (alerts s) v (navigations s).

Definition setNavigations (v : list NavAction) (s : Screen) : Screen :=
  mkScreen (capturedImage s) (loading s) (processingImage s) (isNavigating
    s) (uploadingRef s) (navigationTimeoutRef s) (mountedRef s) (folderId s)
    (timers s) (nextTimer s) (safetyCleanup s) (requests s) (nextRequest s)
    (alerts s) (manipulations s) v.

Definition initialScreen (folder : option positive) : Screen :=
  mkScreen None false false false false None true folder
           ∅ 1%positive false ∅ 1%positive [] [] [].

(** *** Runtime primitives *)

Definition setTimeout (delay : Z) (s : Screen) : positive * Screen :=
  let h := nextTimer s in
  (h, setNextTimer (Pos.succ h) (setTimers (<[h := delay]> (timers s)) s)).

Definition clearTimeout (h : positive) (s : Screen) : Screen :=
  setTimers (delete h (timers s)) s.

Definition showAlert (title message : string) (s : Screen) : Screen :=
  setAlerts (alerts s ++ [mkAlert title message]) s.

Definition navigate (a : NavAction) (s : Screen) : Screen :=
  setNavigations (navigations s ++ [a]) s.

(** *** Helpers of the component *)

Definition safeSetState {A : Type} (setter : A → Screen → Screen) (value : A)
    (s : Screen) : Screen :=
  if mountedRef s then setter value s else s.

(** [if (navigationTimeoutRef.current) { clearTimeout(...); ... = null }] *)
Definition clearNavigationTimeout (s : Screen) : Screen :=
  match navigationTimeoutRef s with
  | Some h => setNavigationTimeoutRef None (clearTimeout h s)
  | None => s
  end.

Definition resetAllStates (s : Screen) : Screen :=
  if mountedRef s then
    let s := safeSetState setIsNavigating false s in
    let s := safeSetState setLoading false s in
    let s := safeSetState setProcessingImage false s in
    let s := setUploadingRef false s in
    clearNavigationTimeout s
  else s.

Definition isOperationInProgress (s : Screen) : bool :=
  loading s || processingImage s || isNavigating s || uploadingRef s.

(** *** The safety-timeout effect *)

(** The body of the effect.  The only timers of the screen are the ones it
    arms, so a pending handle always stands for the callback
    [resetAllStates]. *)
Definition safetyEffect (s : Screen) : Screen :=
  if isNavigating s || loading s || processingImage s || uploadingRef s then
    let '(h, s) := setTimeout SAFETY_TIMEOUT s in
    setSafetyCleanup true (setNavigationTimeoutRef (Some h) s)
  else setSafetyCleanup false s.

(** A re-run after a dependency changed: the cleanup the last run returned,
    if any, then the body. *)
Definition rerunSafetyEffect (s : Screen) : Screen :=
  safetyEffect (if safetyCleanup s then clearNavigationTimeout s else s).

(** A pending timer expires: the runtime drops the handle and calls back. *)
Definition timerExpires (h : positive) (s : Screen) : option Screen :=
  match timers s !! h with
  | Some _ => Some (resetAllStates (clearTimeout h s))
  | None => None
  end.

(** Unmounting runs the cleanups: the mount effect's (which clears the
    timer but keeps the ref), then the safety effect's if there is one. *)
Definition unmount (s : Screen) : Screen :=
  let s := setMountedRef false s in
  let s := match navigationTimeoutRef s with
           | Some h => clearTimeout h s
           | None => s
           end in
  let s := if safetyCleanup s then clearNavigationTimeout s else s in
  setSafetyCleanup false s.

(** The ['blur'] listener and the focus effect. *)
Definition onBlur (s : Screen) : Screen := resetAllStates s.

Definition onFocus (s : Screen) : Screen :=
  setUploadingRef false (safeSetState setIsNavigating false s).

(** ** [processImage] *)

(** Where [processImage] stands at its first suspension point: it has
    returned, or it awaits the manipulator on the request it has made. *)
Inductive ProcessStart : Type :=
| Returned (result : option Asset)
| AwaitManipulate (req : ManipRequest).

(** The asset taken out of the picker result: [assets[0]], or the result
    itself when it carries a [uri]. *)
Definition selectAsset (r : ImageResult) : option Asset :=
  match assets r with
  | Some (first :: _) => Some first
  | _ => if JS.truthyStr (uri (self r)) then Some (self r) else None
  end.

(** [imageResult.assets && imageResult.assets.length === 0] *)
Definition emptyAssets (r : ImageResult) : bool :=
  match assets r with
  | Some [] => true
  | _ => false
  end.

(** From the entry up to [await ImageManipulator.manipulateAsync(...)]. *)
Definition processImage_begin (imageResult : option ImageResult)
    (s : Screen) : ProcessStart * Screen :=
  match imageResult with
  | None => (Returned None, s)
  | Some r =>
    if canceled r || emptyAssets r then (Returned None, s)
    else
      let s := safeSetState setProcessingImage true s in
      match selectAsset r with
      | None => (Returned None, safeSetState setProcessingImage false s)
      | Some imageAsset =>
        if smallEnough imageAsset then
          (Returned (Some imageAsset), safeSetState setProcessingImage false s)
        else
          let req := manipRequestFor imageAsset in
          (AwaitManipulate req, setManipulations (manipulations s ++ [req]) s)
      end
  end.

(** From the moment the manipulation settles to the return. *)
Definition processImage_resume (req : ManipRequest) (outcome : ManipOutcome)
    (s : Screen) : option Asset * Screen :=
  match outcome with
  | Resolved manipResult =>
    let manipResult := withFileSize req manipResult in
    if negb (mountedRef s) then (None, s)
    else (Some manipResult, safeSetState setProcessingImage false s)
  | Rejected _ =>
    if mountedRef s then
      (None, showAlert "Error" "Failed to process image"
               (safeSetState setProcessingImage false s))
    else (None, s)
  end.

(** The whole routine on one asset when nothing else touches the screen
    while the manipulation is pending; [between] is what the rest of the
    application does to the screen meanwhile. *)
Definition processImage (manipulateAsync : ManipRequest → ManipOutcome)
    (between : Screen → Screen) (imageResult : option ImageResult)
    (s : Screen) : option Asset * Screen :=
  match processImage_begin imageResult s with
  | (Returned result, s) => (result, s)
  | (AwaitManipulate req, s) =>
    processImage_resume req (manipulateAsync req) (between s)
  end.

(** The picker result [r] hands [processImage] the asset [a]. *)
Definition carries (r : ImageResult) (a : Asset) : Prop :=
  canceled r = false ∧ emptyAssets r = false ∧ selectAsset r = Some a.

(** ** The capture handlers *)

(** [takePicture] and [pickImage] have the same body but for the picker
    they open and the alert text.  The guard decides whether the picker is
    opened at all; nothing is written before the first [await]. *)
Definition takePicture_begin (s : Screen) : bool :=
  negb (isOperationInProgress s).

(** After the picker: [processImage] up to its own suspension point. *)
Definition takePicture_picked (result : option ImageResult) (s : Screen)
    : ProcessStart * Screen :=
  if negb (mountedRef s) then (Returned None, s)
  else processImage_begin result s.

(** After [processImage] has returned [processedImage]. *)
Definition takePicture_finish (processedImage : option Asset) (s : Screen)
    : Screen :=
  match processedImage with
  | Some _ => if mountedRef s then safeSetState setCapturedImage processedImage s
              else s
  | None => s
  end.

(** The picker itself rejects. *)
Definition takePicture_failed (title message : string) (s : Screen) : Screen :=
  if mountedRef s then showAlert title message s else s.

(** ** [uploadImage] *)

Inductive UploadStart : Type :=
| UploadIgnored
| AwaitUpload (request : positive) (folder : positive).

Inductive UploadOutcome : Type :=
| UploadResolved
| UploadRejected (status : option Z).

(** From the entry up to [await imageApi.uploadImage(formData)]; [now] is
    [new Date().toLocaleString()]. *)
Definition uploadImage_begin (now : string) (s : Screen)
    : UploadStart * Screen :=
  match capturedImage s with
  | None => (UploadIgnored, showAlert "Error" "No image to upload" s)
  | Some image =>
    match folderId s with
    | None =>
      (UploadIgnored,
       showAlert "Error" "Folder ID is missing. Cannot upload image." s)
    | Some folder =>
      if isOperationInProgress s then (UploadIgnored, s)
      else
        let s := safeSetState setLoading true s in
        let s := setUploadingRef true s in
        let formData := mkFormData image folder ("Image " +:+ now) in
        let id := nextRequest s in
        (AwaitUpload id folder,
         setNextRequest (Pos.succ id)
           (setRequests (<[id := formData]> (requests s)) s))
    end
  end.

(** From the moment the upload settles to the return; [folder] is the
    [folderId] the handler was called with. *)
Definition uploadImage_resume (id folder : positive) (outcome : UploadOutcome)
    (s : Screen) : Screen :=
  let s := setRequests (delete id (requests s)) s in
  match outcome with
  | UploadResolved =>
    if negb (mountedRef s) then s
    else
      let s := safeSetState setIsNavigating true s in
      let s := clearNavigationTimeout s in
      navigate (NavReplace "FolderDetail" folder true) s
  | UploadRejected status =>
    if negb (mountedRef s) then s
    else
      let s :=
        if bool_decide (status = Some 413) then
          showAlert "Image Too Large"
            "The image is still too large to upload. Please try using a different image." s
        else
          showAlert "Upload Failed"
            "Unable to save your image. Please try again later." s in
      resetAllStates s
  end.

(** ** Cancelling and going back *)

Definition handleCaptureCancel (s : Screen) : Screen :=
  if isOperationInProgress s then s
  else
    match capturedImage s, folderId s with
    | Some _, Some folder =>
      navigate (NavReplace "FolderDetail" folder false)
        (safeSetState setIsNavigating true s)
    | _, _ => safeSetState setCapturedImage None s
    end.

Definition handleNavigateBack (s : Screen) : Screen :=
  if isOperationInProgress s then s
  else
    let s := safeSetState setIsNavigating true s in
    match folderId s with
    | Some folder => navigate (NavReplace "FolderDetail" folder false) s
    | None => navigate NavGoBack s
    end.

(** The hardware back button. *)
Definition onBackPress (s : Screen) : Screen :=
  if loading s || processingImage s || uploadingRef s then s
  else if isNavigating s then s
  else match capturedImage s with
       | Some _ => handleCaptureCancel s
       | None => handleNavigateBack s
       end.

(** The OK button of the "Permissions Required" alert. *)
Definition permissionsDenied_onPress (s : Screen) : Screen :=
  navigate NavGoBack (safeSetState setIsNavigating true s).

(** ** The life of a screen *)

(** One step of the event loop on a screen: a handler segment, an effect
    run, a timer expiry or the unmount.  A suspended handler may resume
    with any outcome at any time, so every interleaving the application
    can produce is a path of [step]. *)
Inductive step : Screen → Screen → Prop :=
| step_render s :
    mountedRef s = true → step s (rerunSafetyEffect s)
| step_timer s h s' :
    timerExpires h s = Some s' → step s s'
| step_unmount s :
    mountedRef s = true → step s (unmount s)
| step_blur s : step s (onBlur s)
| step_focus s : step s (onFocus s)
| step_picked result s : step s (takePicture_picked result s).2
| step_processed req outcome s : step s (processImage_resume req outcome s).2
| step_captured image s : step s (takePicture_finish image s)
| step_picker_failed title message s :
    step s (takePicture_failed title message s)
| step_upload now s : step s (uploadImage_begin now s).2
| step_uploaded id folder outcome s :
    step s (uploadImage_resume id folder outcome s)
| step_cancel s : step s (handleCaptureCancel s)
| step_back s : step s (handleNavigateBack s)
| step_back_press s : step s (onBackPress s)
| step_permissions s : step s (permissionsDenied_onPress s).

(** The screens the application can be in. *)
Inductive reachable : Screen → Prop :=
| reachable_init folder : reachable (initialScreen folder)
| reachable_step s s' : reachable s → step s s' → reachable s'.

(** What ties the timer table to the component: a pending timer is the one
    the ref holds, belongs to a mounted screen, and has its cleanup
    registered. *)
Definition timersTracked (s : Screen) : Prop :=
  timers s = ∅ ∨
  (mountedRef s = true ∧ safetyCleanup s = true ∧
   ∃ h, navigationTimeoutRef s = Some h ∧ dom (timers s) = {[ h ]}).


(** ** The API client *)

Module ApiClient.

(** The part of an axios request configuration the interceptors touch. *)
Record Config : Type := mkConfig {
  url : option string;
  method : string;
  headers : gmap string string;
}.

Record Response : Type := mkResponse {
  status : Z;
}.

(** An axios error: [response] is missing when nothing came back. *)
Record AxiosError : Type := mkAxiosError {
  response : option Response;
  message : string;
}.

(** How an interceptor's promise settles. *)
Inductive Settled (A E : Type) : Type :=
| Fulfilled (value : A)
| RejectedWith (error : E).
Arguments Fulfilled {A E} value.
Arguments RejectedWith {A E} error.

(** [path.startsWith('/') ? path.substring(1) : path] *)
Definition fixEndpointPath (path : string) : string :=
  match path with
  | String "/"%char rest => rest
  | _ => path
  end.

(** The request interceptor; [store] is the secure store it reads. *)
Definition requestInterceptor (store : gmap string string) (config : Config)
    : Config :=
  let config :=
    match url config with
    | Some u =>
      if negb (String.eqb u "")
      then mkConfig (Some (fixEndpointPath u)) (method config) (headers config)
      else config
    | None => config
    end in
  let token := store !! "token" in
  if JS.truthyStr token then
    match token with
    | Some token =>
      mkConfig (url config) (method config)
               (<["Authorization" := "Bearer " +:+ token]> (headers config))
    | None => config
    end
  else config.

(** The success handler of the response interceptor. *)
Definition responseInterceptor {A : Type} (response : A) : Settled A AxiosError :=
  Fulfilled response.

(** The error handler of the response interceptor: the store it leaves
    and the way its promise settles. *)
Definition responseErrorInterceptor (error : AxiosError)
    (store : gmap string string)
    : gmap string string * Settled Response AxiosError :=
  let store :=
    match response error with
    | Some r => if status r =? 401 then delete "token" store else store
    | None => store
    end in
  (store, RejectedWith error).

End ApiClient.

(** ** The helpers of the API client *)

(** The exported helpers of [client.js]: [getFullImagePath] and
    [createImageFormData].  A string is a sequence of characters;
    [toLowerCase] is modelled on the ASCII letters, which is all the
    comparison with ['jpg'], ['jpeg'], ['png'] and ['gif'] can see. *)
Module ClientHelpers.

Definition API_BASE_URL : string := "10.0.254.15:8000".
Definition API_PROTOCOL : string := "http".
Definition BASE_URL : string := API_PROTOCOL +:+ "://" +:+ API_BASE_URL.
Definition API_URL : string := BASE_URL +:+ "/api/".

(** [s.startsWith(p)] *)
Definition startsWith (s p : string) : bool := String.prefix p s.

(** [getFullImagePath(path)]; [None] is [null]. *)
Definition getFullImagePath (path : option string) : option string :=
  match path with
  | None => None
  | Some path =>
    if String.eqb path "" then None
    else if startsWith path "http://" || startsWith path "https://" then
      Some path
    else if startsWith path "file://" then Some path
    else if startsWith path "/storage/" then
      Some (API_PROTOCOL +:+ "://" +:+ API_BASE_URL +:+ path)
    else if startsWith path "/" then
      Some (API_PROTOCOL +:+ "://" +:+ API_BASE_URL +:+ path)
    else Some (API_PROTOCOL +:+ "://" +:+ API_BASE_URL +:+ "/" +:+ path)
  end.

(** [s.split(sep)] for a one-character separator: never empty. *)
Fixpoint split (sep : ascii) (s : string) : list string :=
  match s with
  | EmptyString => [EmptyString]
  | String c rest =>
    if Ascii.eqb c sep then EmptyString :: split sep rest
    else match split sep rest with
         | first :: others => String c first :: others
         | [] => [String c EmptyString]
         end
  end.

(** [parts[parts.length - 1]] and [parts.pop()] *)
Definition lastPart (parts : list string) : string :=
  List.last parts EmptyString.

Definition toLowerChar (c : ascii) : ascii :=
  let n := nat_of_ascii c in
  if (65 <=? n)%nat && (n <=? 90)%nat then ascii_of_nat (n + 32) else c.

Fixpoint toLowerCase (s : string) : string :=
  match s with
  | EmptyString => EmptyString
  | String c rest => String (toLowerChar c) (toLowerCase rest)
  end.

(** [s.replace(pattern, replacement)] with a string pattern: the first
    occurrence only. *)
Fixpoint replaceFirst (pattern replacement s : string) : string :=
  if String.prefix pattern s then
    replacement +:+ substring (String.length pattern)
                      (String.length s - String.length pattern) s
  else match s with
       | EmptyString => EmptyString
       | String c rest => String c (replaceFirst pattern replacement rest)
       end.

(** The [switch] on the file extension. *)
Definition mimeTypeFor (fileExtension : string) : string :=
  if String.eqb fileExtension "jpg" || String.eqb fileExtension "jpeg"
  then "image/jpeg"
  else if String.eqb fileExtension "png" then "image/png"
  else if String.eqb fileExtension "gif" then "image/gif"
  else "image/jpeg".

(** What [FormData.append] is given: a text field or a file part. *)
Inductive FormValue : Type :=
| TextField (value : string)
| FilePart (uri name type : string).

(** The file name and the MIME type read off a uri. *)
Definition fileNameOf (uri : string) : string := lastPart (split "/" uri).

Definition fileExtensionOf (filename : string) : string :=
  toLowerCase (lastPart (split "." filename)).

(** [createImageFormData(imageData, additionalData)]: the entries of the
    form, in the order they are appended; [os] is [Platform.OS] and
    [additionalData] lists the keys of the object in order. *)
Definition createImageFormData (os : string) (imageData : option Asset)
    (additionalData : list (string * string)) : list (string * FormValue) :=
  let formData := (λ kv, (kv.1, TextField kv.2)) <$> additionalData in
  match imageData with
  | None => formData
  | Some imageData =>
    match uri imageData with
    | None => formData
    | Some uri =>
      if String.eqb uri "" then formData
      else
        let filename := fileNameOf uri in
        let mimeType := mimeTypeFor (fileExtensionOf filename) in
        let formattedUri :=
          if String.eqb os "ios" then replaceFirst "file://" "" uri else uri in
        formData ++ [("image", FilePart formattedUri filename mimeType)]
    end
  end.

End ClientHelpers.

(** ** The images API *)

(** The part of [images.js] that is computation: the rewriting of the
    image paths in a response. *)
Module ImagesApi.

(** An image record of a response: [path], and [_originalPath] once the
    response has been processed. *)
Record Image : Type := mkImage {
  path : option string;
  originalPath : option (option string);
}.

(** [{...image, _originalPath: image.path, path: getFullImagePath(image.path)}] *)
Definition withFullPath (image : Image) : Image :=
  mkImage (ClientHelpers.getFullImagePath (path image)) (Some (path image)).

(** [response.data.data.map(...)], when [response.data.data] is there. *)
Definition processImages (data : option (list Image)) : option (list Image) :=
  fmap (M := option) (fmap (M := list) withFullPath) data.

End ImagesApi.

(** ** The auth context *)

(** [AuthProvider] and the calls of [auth.js] it makes.  A call through the
    API client either succeeds with the response data or fails with an
    axios error, which passes through the response interceptor before
    [auth.js] rethrows it. *)
Module AuthContext.

Record State : Type := mkState {
  user : option string;
  token : option string;
  loading : bool;
}.

Definition initialState : State := mkState None None true.

Inductive ApiOutcome (A : Type) : Type :=
| Succeeds (data : A)
| Fails (error : ApiClient.AxiosError).
Arguments Succeeds {A} data.
Arguments Fails {A} error.

(** The secure store once the call has settled. *)
Definition storeAfter {A : Type} (outcome : ApiOutcome A)
    (store : gmap string string) : gmap string string :=
  match outcome with
  | Succeeds _ => store
  | Fails error => (ApiClient.responseErrorInterceptor error store).1
  end.

(** The [{user, token}] a login or a registration answers with. *)
Record AuthResponse : Type := mkAuthResponse {
  response_user : string;
  response_token : string;
}.

(** [loadStoredToken], run once on mount. *)
Definition loadStoredToken (currentUser : ApiOutcome string)
    (st : State) (store : gmap string string) : State * gmap string string :=
  if JS.truthyStr (store !! "token") then
    let st := mkState (user st) (store !! "token") (loading st) in
    match currentUser with
    | Succeeds userData =>
      (mkState (Some userData) (token st) false, store)
    | Fails _ =>
      (mkState (user st) (token st) false, storeAfter currentUser store)
    end
  else (mkState (user st) (token st) false, store).

(** [handleLogin] and [handleRegister]: the state, the store and whether
    the handler returned the response or threw. *)
Definition handleLogin (login : ApiOutcome AuthResponse)
    (st : State) (store : gmap string string)
    : State * gmap string string * bool :=
  match login with
  | Succeeds response =>
    (mkState (Some (response_user response)) (Some (response_token response))
             (loading st),
     <["token" := response_token response]> store, true)
  | Fails _ => (st, storeAfter login store, false)
  end.

(** [handleLogout]: [apiLogout] is called only when the context holds a
    token; both the [try] and the [catch] clear the session. *)
Definition handleLogout (apiLogout : ApiOutcome unit)
    (st : State) (store : gmap string string) : State * gmap string string :=
  let store :=
    if JS.truthyStr (token st) then storeAfter apiLogout store else store in
  (mkState None None (loading st), delete "token" store).

End AuthContext.

(** ** Invariants of the screen *)

(** The ref and the timer table agree: the ref holds the one pending
    timer, a safety timer on a mounted screen whose cleanup is registered,
    or it is null and nothing is pending. *)
Definition timerHeld (s : Screen) : Prop :=
  match navigationTimeoutRef s with
  | Some h =>
    mountedRef s = true ∧ safetyCleanup s = true ∧
    timers s = {[ h := SAFETY_TIMEOUT ]}
  | None => timers s = ∅
  end.

(** The requests in flight were all numbered before the next one. *)
Definition requestsNumbered (s : Screen) : Prop :=
  ∀ id, is_Some (requests s !! id) → (id < nextRequest s)%positive.

(** ** Sample assets and screens *)

Definition smallAsset : Asset :=
  mkAsset (Some "file:///cache/photo.jpg") (Some 1899999%positive)
          (Some 4000%positive) (Some 3000%positive).

Definition pickerResult (a : Asset) : ImageResult :=
  mkImageResult false (Some [a]) (mkAsset None None None None).

Definition landscapeAsset : Asset :=
  mkAsset (Some "file:///cache/landscape.jpg") (Some 2500000%positive)
          (Some 4000%positive) (Some 3000%positive).

Definition hugeAsset : Asset :=
  mkAsset (Some "file:///cache/huge.jpg") (Some 6000000%positive)
          (Some 6000%positive) (Some 8000%positive).

Definition sizeOnlyAsset : Asset :=
  mkAsset (Some "file:///cache/raw.jpg") (Some 2000000%positive) None None.



(** A screen with a captured image whose upload has just been started;
    the same screen once the safety effect has run; and the same screen
    five seconds later, the upload still pending. *)
Definition uploadingScreen : Screen :=
  (uploadImage_begin "1/11/2026, 9:59:58"
     (takePicture_finish (Some smallAsset)
        (initialScreen (Some 7%positive)))).2.

Definition slowUploadScreen : Screen := rerunSafetyEffect uploadingScreen.

Definition timedOutScreen : Screen :=
  default slowUploadScreen (timerExpires 1 slowUploadScreen).

(** A screen that is navigating away, after the safety effect has run. *)
Definition navigatingScreen : Screen :=
  rerunSafetyEffect (permissionsDenied_onPress (initialScreen None)).

(** A login request, as [auth.js] posts it, and a request for folders. *)
Definition loginRequest : ApiClient.Config :=
  ApiClient.mkConfig (Some "/login") "post"
    {[ "Content-Type" := "application/json"; "Accept" := "application/json" ]}.

Definition foldersRequest : ApiClient.Config :=
  ApiClient.mkConfig (Some "/folders") "get"
    {[ "Content-Type" := "application/json"; "Accept" := "application/json" ]}.

Definition signedInStore : gmap string string :=
  {[ "token" := "3|kZ8cQpL" ]}.

Definition unauthorized : ApiClient.AxiosError :=
  ApiClient.mkAxiosError (Some (ApiClient.mkResponse 401))
    "Request failed with status code 401".

Definition squareAsset : Asset :=
  mkAsset (Some "file:///cache/square.png") (Some 2200000%positive)
          (Some 800%positive) (Some 800%positive).

Definition stripAsset : Asset :=
  mkAsset (Some "file:///cache/strip.jpg") (Some 2000000%positive)
          (Some 2%positive) (Some 5000%positive).

(** A screen showing the preview of a captured image. *)
Definition capturedScreen : Screen :=
  takePicture_finish (Some smallAsset) (initialScreen (Some 7%positive)).

(** A request that got no response. *)
Definition networkError : ApiClient.AxiosError :=
  ApiClient.mkAxiosError None "Network Error".

Definition loginResponse : AuthContext.AuthResponse :=
  AuthContext.mkAuthResponse "ada@example.org" "3|kZ8cQpL".

(** * Properties *)

(** ** Rounding *)

Section Rounding.

Lemma Math_round_div (n d : Z) :
  0 < d →
  JS.Math_round (inject_Z n / inject_Z d)%Q = (2 * n + d) / (2 * d).
Proof.
  intros Hd. unfold JS.Math_round.
  rewrite Zdiv_Qdiv. apply Qfloor_comp.
  rewrite !inject_Z_plus, !inject_Z_mult.
  assert (Hne : ¬ (inject_Z d == 0)%Q).
  { intros H. apply (proj1 (inject_Z_injective d 0)) in H. lia. }
  field. exact Hne.
Qed.

(** The rounded quotient is within half a unit of the exact one. *)
Lemma Math_round_div_close (n d : Z) :
  0 < d →
  2 * Z.abs (JS.Math_round (inject_Z n / inject_Z d)%Q * d - n) ≤ d.
Proof.
  intros Hd. rewrite Math_round_div by done.
  pose proof (Z.div_mod (2 * n + d) (2 * d) ltac:(lia)) as Hdm.
  pose proof (Z.mod_pos_bound (2 * n + d) (2 * d) ltac:(lia)) as Hb.
  set (k := (2 * n + d) / (2 * d)) in *.
  set (m := (2 * n + d) mod (2 * d)) in *.
  lia.
Qed.


Lemma Math_round_Z (n : Z) : JS.Math_round (inject_Z n) = n.
Proof.
  unfold JS.Math_round.
  pose proof (Qfloor_resp_le (inject_Z n) (inject_Z n + 0.5)%Q) as Hlo.
  pose proof (Qlt_floor (inject_Z n + 0.5)%Q) as Hhi.
  rewrite Qfloor_Z in Hlo.
  assert (Qfloor (inject_Z n + 0.5)%Q < n + 1); [| assert (n ≤ Qfloor (inject_Z n + 0.5)%Q); [|lia]].
  - apply Z.lt_nge. intros Hge.
    assert (inject_Z (n + 1) <= inject_Z (Qfloor (inject_Z n + 0.5)))%Q as H1
      by (rewrite <- Zle_Qle; lia).
    pose proof (Qfloor_le (inject_Z n + 0.5)%Q) as H2.
    rewrite inject_Z_plus in H1.
    assert (inject_Z n + inject_Z 1 <= inject_Z n + 0.5)%Q as H3
      by (eapply Qle_trans; eauto).
    apply Qplus_le_r in H3. revert H3. by compute.
  - apply Hlo. rewrite <- (Qplus_0_r (inject_Z n)) at 1.
    apply Qplus_le_r. by compute.
Qed.

End Rounding.

(** ** Image preparation *)

(** Unfold the component's helpers and split on the mounted flag. *)
Ltac unfold_helpers :=
  unfold resetAllStates, clearNavigationTimeout, safeSetState, showAlert,
    navigate, clearTimeout, isOperationInProgress in *.

Ltac screen_cases s :=
  unfold_helpers; destruct s as [? ? ? ? ? [?|] [] ? ? ? ? ? ? ? ? ?];
  simpl in *.

Section ImagePreparation.

Lemma smallEnough_iff (a : Asset) :
  smallEnough a = true ↔ ∃ size, fileSize a = Some size ∧ Z.pos size < MAX_IMAGE_SIZE.
Proof.
  unfold smallEnough. destruct (fileSize a) as [size|]; simpl.
  - rewrite Z.ltb_lt. split; [eauto | by intros (? & [= ->] & ?)].
  - split; [done | by intros (? & ? & ?)].
Qed.

Lemma over_threshold_not_small (a : Asset) (size : positive) :
  fileSize a = Some size → MAX_IMAGE_SIZE ≤ Z.pos size → smallEnough a = false.
Proof.
  intros Hsize Hge. apply not_true_is_false. rewrite smallEnough_iff.
  intros (size' & Hsize' & Hlt). rewrite Hsize in Hsize'.
  injection Hsize' as <-. lia.
Qed.

(** A small asset comes straight back. *)
Lemma processImage_begin_small (r : ImageResult) (a : Asset) (s : Screen) :
  carries r a → smallEnough a = true →
  processImage_begin (Some r) s =
    (Returned (Some a),
     safeSetState setProcessingImage false
       (safeSetState setProcessingImage true s)).
Proof.
  intros (Hc & He & Ha) Hsmall. unfold processImage_begin.
  by rewrite Hc, He, Ha, Hsmall.
Qed.

(** Any other asset is sent to the manipulator, once. *)
Lemma processImage_begin_large (r : ImageResult) (a : Asset) (s : Screen) :
  carries r a → smallEnough a = false →
  processImage_begin (Some r) s =
    (AwaitManipulate (manipRequestFor a),
     let s := safeSetState setProcessingImage true s in
     setManipulations (manipulations s ++ [manipRequestFor a]) s).
Proof.
  intros (Hc & He & Ha) Hsmall. unfold processImage_begin.
  by rewrite Hc, He, Ha, Hsmall.
Qed.

Lemma safeSetState_processing_manipulations (b : bool) (s : Screen) :
  manipulations (safeSetState setProcessingImage b s) = manipulations s.
Proof. unfold safeSetState. by destruct (mountedRef s). Qed.

Lemma resizeDimensions_known (a : Asset) (w h : positive) :
  width a = Some w → height a = Some h →
  resizeDimensions a =
    if (Z.pos h <? Z.pos w) && (MAX_DIMENSION <? Z.pos w) then
      (MAX_DIMENSION,
       JS.Math_round (inject_Z (Z.pos h * MAX_DIMENSION) / inject_Z (Z.pos w))%Q)
    else if MAX_DIMENSION <? Z.pos h then
      (JS.Math_round (inject_Z (Z.pos w * MAX_DIMENSION) / inject_Z (Z.pos h))%Q,
       MAX_DIMENSION)
    else (Z.pos w, Z.pos h).
Proof. intros Hw Hh. unfold resizeDimensions. by rewrite Hw, Hh. Qed.

Lemma manipRequestFor_dimensions (a : Asset) :
  (m_width (manipRequestFor a), m_height (manipRequestFor a)) =
  resizeDimensions a.
Proof. unfold manipRequestFor. by destruct (resizeDimensions a). Qed.

Lemma manipRequestFor_compress (a : Asset) :
  m_compress (manipRequestFor a) = qualityFor (fileSize a).
Proof. unfold manipRequestFor. by destruct (resizeDimensions a). Qed.

End ImagePreparation.

(** C1.  An asset whose [fileSize] is known and below 1,900,000 bytes comes
    back from [processImage] as it went in, and the image manipulator is
    not called: whatever the manipulator would answer and whatever happens
    to the screen meanwhile, the result is the input asset and the list of
    manipulator calls is the one before the call. *)
Theorem small_asset_returned_unchanged
    (manipulateAsync : ManipRequest → ManipOutcome) (between : Screen → Screen)
    (r : ImageResult) (a : Asset) (size : positive) (s : Screen) :
  carries r a →
  fileSize a = Some size →
  Z.pos size < MAX_IMAGE_SIZE →
  processImage_begin (Some r) s =
    (Returned (Some a), (processImage_begin (Some r) s).2) ∧
  (processImage manipulateAsync between (Some r) s).1 = Some a ∧
  manipulations (processImage manipulateAsync between (Some r) s).2 =
    manipulations s.
Proof.
  intros Hr Hsize Hlt.
  assert (Hsmall : smallEnough a = true) by (apply smallEnough_iff; eauto).
  unfold processImage. rewrite (processImage_begin_small r a s Hr Hsmall).
  simpl. split_and!; [done | done |].
  by rewrite !safeSetState_processing_manipulations.
Qed.

Lemma small_asset_returned_unchanged_witness :
  (processImage (λ _, Rejected "unused") id
     (Some (pickerResult smallAsset)) (initialScreen (Some 7%positive))).1
  = Some smallAsset.
Proof.
  apply (small_asset_returned_unchanged (λ _, Rejected "unused") id
           (pickerResult smallAsset) smallAsset 1899999%positive
           (initialScreen (Some 7%positive))).
  - by repeat split.
  - reflexivity.
  - reflexivity.
Defined.

(** C2.  For an over-threshold asset with known width and height whose
    longer side exceeds 1200 px, the resize request [processImage] makes
    sets the longer side to exactly 1200 and the other side to
    [round (other * 1200 / longer)], which keeps the aspect ratio up to
    rounding (the scaled side is within half a pixel of the exact one): the
    width becomes 1200 when [width > height] and [width > 1200], the height
    becomes 1200 when [height >= width] and [height > 1200]. *)
Theorem longer_side_scaled_to_1200
    (r : ImageResult) (a : Asset) (size w h : positive) (s : Screen) :
  carries r a →
  fileSize a = Some size →
  MAX_IMAGE_SIZE ≤ Z.pos size →
  width a = Some w →
  height a = Some h →
  1200 < Z.max (Z.pos w) (Z.pos h) →
  ∃ req s',
    processImage_begin (Some r) s = (AwaitManipulate req, s') ∧
    (Z.pos h < Z.pos w →
       m_width req = 1200 ∧
       m_height req =
         JS.Math_round (inject_Z (Z.pos h * 1200) / inject_Z (Z.pos w))%Q ∧
       2 * Z.abs (m_height req * Z.pos w - Z.pos h * 1200) ≤ Z.pos w) ∧
    (Z.pos w ≤ Z.pos h →
       m_height req = 1200 ∧
       m_width req =
         JS.Math_round (inject_Z (Z.pos w * 1200) / inject_Z (Z.pos h))%Q ∧
       2 * Z.abs (m_width req * Z.pos h - Z.pos w * 1200) ≤ Z.pos h).
Proof.
  intros Hr Hsize Hge Hw Hh Hlong.
  pose proof (over_threshold_not_small a size Hsize Hge) as Hbig.
  rewrite (processImage_begin_large r a s Hr Hbig).
  eexists _, _. split; [reflexivity |].
  pose proof (manipRequestFor_dimensions a) as Hdim.
  rewrite (resizeDimensions_known a w h Hw Hh) in Hdim.
  unfold MAX_DIMENSION in Hdim.
  split; intros Hcmp.
  - assert (Hw1200 : 1200 < Z.pos w) by lia.
    apply Z.ltb_lt in Hcmp as Hc1. apply Z.ltb_lt in Hw1200 as Hc2.
    rewrite Hc1, Hc2 in Hdim. simpl andb in Hdim. cbv iota in Hdim.
    injection Hdim as Hmw Hmh. rewrite Hmw, Hmh.
    split_and!; [done | done |].
    apply Math_round_div_close. lia.
  - assert (Hh1200 : 1200 < Z.pos h) by lia.
    assert (Hc1 : (Z.pos h <? Z.pos w) = false) by (apply Z.ltb_ge; lia).
    apply Z.ltb_lt in Hh1200 as Hc2.
    rewrite Hc1, Hc2 in Hdim. simpl andb in Hdim. cbv iota in Hdim.
    injection Hdim as Hmw Hmh. rewrite Hmw, Hmh.
    split_and!; [done | done |].
    apply Math_round_div_close. lia.
Qed.

Lemma longer_side_scaled_to_1200_witness :
  ∃ req s',
    processImage_begin (Some (pickerResult landscapeAsset))
      (initialScreen (Some 7%positive)) = (AwaitManipulate req, s') ∧
    m_width req = 1200 ∧ m_height req = 900.
Proof.
  destruct (longer_side_scaled_to_1200 (pickerResult landscapeAsset)
              landscapeAsset 2500000%positive 4000%positive 3000%positive
              (initialScreen (Some 7%positive)))
    as (req & s' & Hbegin & Hwide & _).
  - by repeat split.
  - reflexivity.
  - unfold MAX_IMAGE_SIZE. lia.
  - reflexivity.
  - reflexivity.
  - lia.
  - exists req, s'. destruct Hwide as (Hmw & Hmh & _); [lia |].
    split_and!; [done | done |]. rewrite Hmh. by vm_compute.
Defined.

(** C6.  The compression quality [processImage] asks for is 0.5 above
    5,000,000 bytes, 0.6 above 3,000,000 bytes and 0.7 otherwise, and it
    never increases with the input size: of two over-threshold assets, the
    larger one is compressed at a quality no higher than the smaller
    one's. *)
Theorem quality_tiers_monotone
    (a1 a2 : Asset) (size1 size2 : positive) :
  fileSize a1 = Some size1 →
  fileSize a2 = Some size2 →
  MAX_IMAGE_SIZE ≤ Z.pos size1 →
  Z.pos size1 ≤ Z.pos size2 →
  (m_compress (manipRequestFor a2) <= m_compress (manipRequestFor a1))%Q ∧
  (5000000 < Z.pos size1 → m_compress (manipRequestFor a1) = 0.5%Q) ∧
  (3000000 < Z.pos size1 ≤ 5000000 →
     m_compress (manipRequestFor a1) = 0.6%Q) ∧
  (Z.pos size1 ≤ 3000000 → m_compress (manipRequestFor a1) = 0.7%Q).
Proof.
  intros H1 H2 _ Hle. rewrite !manipRequestFor_compress, H1, H2.
  unfold qualityFor, JS.gt.
  destruct (Z.ltb_spec 5000000 (Z.pos size1)),
           (Z.ltb_spec 3000000 (Z.pos size1)),
           (Z.ltb_spec 5000000 (Z.pos size2)),
           (Z.ltb_spec 3000000 (Z.pos size2));
    try lia; (split; [by compute | split_and!; intros; (done || lia)]).
Qed.

Lemma quality_tiers_monotone_witness :
  (m_compress (manipRequestFor hugeAsset)
     <= m_compress (manipRequestFor landscapeAsset))%Q ∧
  m_compress (manipRequestFor landscapeAsset) = 0.7%Q.
Proof.
  destruct (quality_tiers_monotone landscapeAsset hugeAsset
              2500000%positive 6000000%positive)
    as (Hmono & _ & _ & Hlow).
  - reflexivity.
  - reflexivity.
  - unfold MAX_IMAGE_SIZE. lia.
  - lia.
  - split; [exact Hmono | apply Hlow; lia].
Defined.

(** C9.  For an over-threshold asset whose width and height are both
    missing, [processImage] takes 1000 for each and asks the manipulator
    for exactly 1000 x 1000. *)
Theorem missing_dimensions_default_to_1000
    (r : ImageResult) (a : Asset) (size : positive) (s : Screen) :
  carries r a →
  fileSize a = Some size →
  MAX_IMAGE_SIZE ≤ Z.pos size →
  width a = None →
  height a = None →
  ∃ req s',
    processImage_begin (Some r) s = (AwaitManipulate req, s') ∧
    manipulations s' = manipulations s ++ [req] ∧
    m_width req = 1000 ∧ m_height req = 1000.
Proof.
  intros Hr Hsize Hge Hw Hh.
  pose proof (over_threshold_not_small a size Hsize Hge) as Hbig.
  rewrite (processImage_begin_large r a s Hr Hbig).
  eexists _, _. split; [reflexivity |]. cbv zeta.
  split.
  - unfold safeSetState. by destruct (mountedRef s).
  - pose proof (manipRequestFor_dimensions a) as Hdim.
    unfold resizeDimensions in Hdim. rewrite Hw, Hh in Hdim.
    simpl in Hdim. by injection Hdim.
Qed.

Lemma missing_dimensions_default_to_1000_witness :
  ∃ req s',
    processImage_begin (Some (pickerResult sizeOnlyAsset))
      (initialScreen (Some 7%positive)) = (AwaitManipulate req, s') ∧
    manipulations s' =
      manipulations (initialScreen (Some 7%positive)) ++ [req] ∧
    m_width req = 1000 ∧ m_height req = 1000.
Proof.
  apply (missing_dimensions_default_to_1000 (pickerResult sizeOnlyAsset)
           sizeOnlyAsset 2000000%positive).
  - by repeat split.
  - reflexivity.
  - unfold MAX_IMAGE_SIZE. lia.
  - reflexivity.
  - reflexivity.
Defined.

(** ** Double arithmetic *)

Section DoubleArithmetic.

Import Double.

Local Open Scope Q_scope.










End DoubleArithmetic.

(** ** The size of a processed asset *)

Section ProcessedSize.

Lemma orElse_pos (x : option positive) (d : Z) : 0 < d → 0 < JS.orElse x d.
Proof. destruct x; simpl; lia. Qed.

(** Both sides of a resize request lie between 0 and 1200. *)
Lemma resizeDimensions_bounds (a : Asset) :
  0 ≤ (resizeDimensions a).1 ≤ MAX_DIMENSION ∧
  0 ≤ (resizeDimensions a).2 ≤ MAX_DIMENSION.
Proof.
  unfold resizeDimensions, MAX_DIMENSION.
  pose proof (orElse_pos (width a) 1000 ltac:(lia)) as Hw.
  pose proof (orElse_pos (height a) 1000 ltac:(lia)) as Hh.
  set (w := JS.orElse (width a) 1000) in *.
  set (h := JS.orElse (height a) 1000) in *.
  destruct (Z.ltb_spec h w), (Z.ltb_spec 1200 w), (Z.ltb_spec 1200 h);
    simpl; rewrite ?Math_round_div by lia;
    repeat split; try lia;
    try (apply Z.div_pos; lia);
    try (apply Z.lt_succ_r, Z.div_lt_upper_bound; lia).
Qed.




(** Where the exact product is a half, the roundings decide: 601 x 1100 x
    0.7 x 0.15 is 69415.5 exactly and 69415.49999999999 in doubles. *)
Lemma estimatedSize_below_tie : estimatedSize 601 1100 0.7 = 69415.
Proof. by vm_compute. Qed.


End ProcessedSize.




(** ** A failing manipulation *)

(** C5, as stated, fails: when the screen has been unmounted while the
    manipulation was pending, a rejection is swallowed without an alert and
    the processing flag stays up. *)
Lemma rejection_after_unmount_is_silent :
  let res := processImage (λ _, Rejected "out of memory") unmount
               (Some (pickerResult landscapeAsset))
               (initialScreen (Some 7%positive)) in
  res.1 = None ∧ alerts res.2 = [] ∧ processingImage res.2 = true.
Proof. by vm_compute. Qed.

(** C5, amended.  [processImage] calls the manipulator once.  When the
    call rejects, the routine catches the error, calls nothing again and
    returns null, so that no image is captured and there is nothing to
    upload; if the screen is still mounted it also lowers the processing
    flag and shows the alert "Failed to process image", and if the screen
    has been unmounted meanwhile it leaves everything as it is. *)
Theorem manipulation_failure_aborts
    (r : ImageResult) (a : Asset) (error : string) (s settled : Screen) :
  carries r a →
  smallEnough a = false →
  (∃ s1, processImage_begin (Some r) s =
           (AwaitManipulate (manipRequestFor a), s1) ∧
         manipulations s1 = manipulations s ++ [manipRequestFor a]) ∧
  let res := processImage_resume (manipRequestFor a) (Rejected error) settled in
  res.1 = None ∧
  manipulations res.2 = manipulations settled ∧
  capturedImage (takePicture_finish res.1 res.2) = capturedImage settled ∧
  (mountedRef settled = true →
     processingImage res.2 = false ∧
     alerts res.2 =
       alerts settled ++ [mkAlert "Error" "Failed to process image"]) ∧
  (mountedRef settled = false → res.2 = settled).
Proof.
  intros Hr Hbig. split.
  - rewrite (processImage_begin_large r a s Hr Hbig).
    eexists. split; [reflexivity |]. cbv zeta.
    by rewrite safeSetState_processing_manipulations.
  - unfold processImage_resume.
    destruct settled as [? ? ? ? ? ? [] ? ? ? ? ? ? ? ? ?]; by simpl.
Qed.

Lemma manipulation_failure_aborts_witness :
  let settled := (processImage_begin (Some (pickerResult landscapeAsset))
                    (initialScreen (Some 7%positive))).2 in
  let res := processImage_resume (manipRequestFor landscapeAsset)
               (Rejected "out of memory") settled in
  res.1 = None ∧
  manipulations res.2 = manipulations settled ∧
  capturedImage (takePicture_finish res.1 res.2) = capturedImage settled ∧
  (mountedRef settled = true →
     processingImage res.2 = false ∧
     alerts res.2 =
       alerts settled ++ [mkAlert "Error" "Failed to process image"]) ∧
  (mountedRef settled = false → res.2 = settled).
Proof.
  apply (manipulation_failure_aborts (pickerResult landscapeAsset)
           landscapeAsset "out of memory" (initialScreen (Some 7%positive))).
  - by repeat split.
  - reflexivity.
Defined.

(** ** The operation guard *)




(** ** The safety timer *)

Section SafetyTimer.

(** A handler that leaves the timer table, the mounted flag, the cleanup
    and the ref alone keeps the timers tracked. *)
Lemma timersTracked_frame (s s' : Screen) :
  timers s' = timers s →
  mountedRef s' = mountedRef s →
  safetyCleanup s' = safetyCleanup s →
  navigationTimeoutRef s' = navigationTimeoutRef s →
  timersTracked s → timersTracked s'.
Proof.
  unfold timersTracked. intros -> -> -> -> H. exact H.
Qed.

Lemma timersTracked_empty (s : Screen) : timers s = ∅ → timersTracked s.
Proof. by left. Qed.

(** Under the invariant a pending timer is the one the ref holds, and the
    screen is mounted. *)
Lemma timersTracked_pending (s : Screen) (h : positive) (delay : Z) :
  timersTracked s → timers s !! h = Some delay →
  mountedRef s = true ∧ navigationTimeoutRef s = Some h ∧
  delete h (timers s) = ∅.
Proof.
  intros [Hempty | (Hm & _ & h' & Href & Hdom)] Hh.
  - rewrite Hempty in Hh. by rewrite lookup_empty in Hh.
  - assert (h ∈ dom (timers s)) as Hin by (apply elem_of_dom; eauto).
    rewrite Hdom in Hin. apply elem_of_singleton in Hin as ->.
    split_and!; [done | done |].
    apply dom_empty_iff_L. rewrite dom_delete_L, Hdom.
    apply difference_diag_L.
Qed.

Lemma clearNavigationTimeout_timers (s : Screen) :
  timersTracked s → timers (clearNavigationTimeout s) = ∅.
Proof.
  intros [Hempty | (_ & _ & h & Href & Hdom)]; unfold clearNavigationTimeout.
  - destruct (navigationTimeoutRef s); simpl; rewrite Hempty; [| done].
    apply delete_empty.
  - rewrite Href. simpl.
    apply dom_empty_iff_L. rewrite dom_delete_L, Hdom.
    apply difference_diag_L.
Qed.

Lemma resetAllStates_tracked (s : Screen) :
  timersTracked s → timersTracked (resetAllStates s).
Proof.
  intros H. unfold resetAllStates.
  destruct (mountedRef s) eqn:Hm; [| done].
  apply timersTracked_empty.
  pose proof (clearNavigationTimeout_timers s H) as Hclear.
  revert Hclear. unfold clearNavigationTimeout, safeSetState.
  rewrite Hm. simpl. rewrite Hm. simpl. rewrite Hm. simpl.
  by destruct (navigationTimeoutRef s).
Qed.

Lemma rerunSafetyEffect_tracked (s : Screen) :
  mountedRef s = true → timersTracked s → timersTracked (rerunSafetyEffect s).
Proof.
  intros Hm H. unfold rerunSafetyEffect.
  set (s0 := if safetyCleanup s then clearNavigationTimeout s else s).
  assert (Hempty : timers s0 = ∅).
  { subst s0. destruct (safetyCleanup s) eqn:Hc.
    - by apply clearNavigationTimeout_timers.
    - destruct H as [? | (_ & Hc' & _)]; [done | congruence]. }
  assert (Hm0 : mountedRef s0 = true).
  { subst s0. destruct (safetyCleanup s); [| done].
    unfold clearNavigationTimeout.
    by destruct (navigationTimeoutRef s). }
  clearbody s0. unfold safetyEffect, setTimeout.
  destruct (isNavigating s0 || loading s0 || processingImage s0
            || uploadingRef s0); simpl.
  - right. split_and!; [done | done |].
    exists (nextTimer s0). split; [done |].
    rewrite Hempty, insert_empty. apply dom_singleton_L.
  - by left.
Qed.

Lemma unmount_tracked (s : Screen) :
  timersTracked s → timersTracked (unmount s).
Proof.
  intros H. apply timersTracked_empty.
  destruct s as [ci ld pi nav up ref m fid tm nt sc rq nr al mn nv].
  unfold unmount, clearNavigationTimeout, clearTimeout.
  destruct H as [Hempty | (_ & Hc & h & Href & Hdom)]; simpl in *; subst.
  - destruct ref, sc; simpl; by rewrite ?delete_empty.
  - simpl. apply dom_empty_iff_L. rewrite !dom_delete_L, Hdom.
    rewrite difference_diag_L. apply empty_difference_L.
Qed.

Lemma timerExpires_tracked (s s' : Screen) (h : positive) :
  timerExpires h s = Some s' → timersTracked s → timersTracked s'.
Proof.
  unfold timerExpires. intros Hexp H.
  destruct (timers s !! h) as [delay|] eqn:Hh; [| done].
  injection Hexp as <-.
  destruct (timersTracked_pending s h delay H Hh) as (_ & _ & Hdel).
  apply resetAllStates_tracked, timersTracked_empty. exact Hdel.
Qed.

(** Every step keeps the timers tracked. *)
Ltac solve_frame s H :=
  eapply timersTracked_frame; [.. | exact H];
  unfold onFocus, takePicture_picked, processImage_begin,
    processImage_resume, takePicture_finish, takePicture_failed,
    uploadImage_begin, onBackPress, handleCaptureCancel, handleNavigateBack,
    permissionsDenied_onPress, isOperationInProgress, safeSetState,
    showAlert, navigate;
  destruct s as [? ? ? ? ? ? [] ? ? ? ? ? ? ? ? ?]; simpl;
  repeat (case_match; simpl); done.

Lemma step_tracked (s s' : Screen) :
  step s s' → timersTracked s → timersTracked s'.
Proof.
  intros Hstep H. destruct Hstep.
  - by apply rerunSafetyEffect_tracked.
  - by eapply timerExpires_tracked.
  - by apply unmount_tracked.
  - by apply resetAllStates_tracked.
  - solve_frame s H.
  - solve_frame s H.
  - solve_frame s H.
  - solve_frame s H.
  - solve_frame s H.
  - solve_frame s H.
  - unfold uploadImage_resume.
    set (s0 := setRequests _ s).
    assert (H0 : timersTracked s0)
      by (eapply timersTracked_frame; [.. | exact H]; done).
    clearbody s0. destruct outcome.
    + destruct (mountedRef s0) eqn:Hm; simpl; [| done].
      apply timersTracked_empty. unfold navigate. simpl.
      rewrite <- (clearNavigationTimeout_timers s0 H0).
      unfold clearNavigationTimeout, safeSetState. rewrite Hm. simpl.
      by destruct (navigationTimeoutRef s0).
    + destruct (mountedRef s0) eqn:Hm; simpl; [| done].
      apply resetAllStates_tracked.
      eapply timersTracked_frame; [.. | exact H0];
        unfold showAlert; by case_bool_decide.
  - solve_frame s H.
  - solve_frame s H.
  - solve_frame s H.
  - solve_frame s H.
Qed.

Lemma reachable_tracked (s : Screen) : reachable s → timersTracked s.
Proof.
  induction 1 as [folder | s s' _ IH Hstep].
  - by left.
  - by eapply step_tracked.
Qed.

End SafetyTimer.

(** C7.  On every screen the application can reach: when an operation
    flag ([loading], [processingImage], [isNavigating] or the uploading
    ref) is set, the safety effect arms one timer, of exactly 5000 ms; and
    when a pending timer expires, the four flags are false and no timer is
    left (the table is empty and the ref is null), while the captured
    image, the folder, the mounted flag, the requests in flight, the alerts
    shown and the navigation and manipulator calls are what they were: no
    request is aborted. *)
Theorem safety_timer_resets_flags_only (s : Screen) :
  reachable s →
  (isOperationInProgress s = true →
     ∃ h, navigationTimeoutRef (rerunSafetyEffect s) = Some h ∧
          timers (rerunSafetyEffect s) = {[ h := 5000 ]}) ∧
  (∀ h s', timerExpires h s = Some s' →
     (loading s' = false ∧ processingImage s' = false ∧
      isNavigating s' = false ∧ uploadingRef s' = false) ∧
     (timers s' = ∅ ∧ navigationTimeoutRef s' = None) ∧
     capturedImage s' = capturedImage s ∧
     folderId s' = folderId s ∧
     mountedRef s' = mountedRef s ∧
     requests s' = requests s ∧
     alerts s' = alerts s ∧
     manipulations s' = manipulations s ∧
     navigations s' = navigations s).
Proof.
  intros Hreach. pose proof (reachable_tracked s Hreach) as Htracked. split.
  - intros Hbusy. unfold rerunSafetyEffect.
    set (s0 := if safetyCleanup s then clearNavigationTimeout s else s).
    assert (Hempty : timers s0 = ∅).
    { subst s0. destruct (safetyCleanup s) eqn:Hc.
      - by apply clearNavigationTimeout_timers.
      - destruct Htracked as [? | (_ & Hc' & _)]; [done | congruence]. }
    assert (Hbusy0 : isNavigating s0 || loading s0 || processingImage s0
                     || uploadingRef s0 = true).
    { subst s0. unfold isOperationInProgress in Hbusy.
      unfold clearNavigationTimeout.
      destruct (safetyCleanup s), (navigationTimeoutRef s); simpl;
        destruct (loading s), (processingImage s), (isNavigating s),
          (uploadingRef s); done. }
    clearbody s0. unfold safetyEffect, setTimeout. rewrite Hbusy0. simpl.
    exists (nextTimer s0). split; [done |].
    by rewrite Hempty, insert_empty.
  - intros h s' Hexp. unfold timerExpires in Hexp.
    destruct (timers s !! h) as [delay|] eqn:Hh; [| done].
    injection Hexp as <-.
    destruct (timersTracked_pending s h delay Htracked Hh)
      as (Hm & Href & Hdel).
    unfold resetAllStates, clearNavigationTimeout, safeSetState, clearTimeout.
    destruct s as [ci ld pi nav up ref m fid tm nt sc rq nr al mn nv].
    simpl in *. subst. simpl. rewrite Hdel, delete_empty. done.
Qed.

Lemma safety_timer_resets_flags_only_witness :
  (∃ h, navigationTimeoutRef (rerunSafetyEffect navigatingScreen) = Some h ∧
        timers (rerunSafetyEffect navigatingScreen) = {[ h := 5000 ]}) ∧
  ∃ s', timerExpires 1 navigatingScreen = Some s' ∧
        isNavigating navigatingScreen = true ∧
        isNavigating s' = false ∧ timers s' = ∅.
Proof.
  assert (Hreach : reachable navigatingScreen).
  { unfold navigatingScreen.
    eapply reachable_step; [eapply reachable_step |].
    - apply (reachable_init None).
    - apply step_permissions.
    - apply step_render. reflexivity. }
  destruct (safety_timer_resets_flags_only navigatingScreen Hreach)
    as [Harmed Hexpiry].
  split; [apply Harmed; reflexivity |].
  destruct (timerExpires 1 navigatingScreen) as [s'|] eqn:Hexp;
    [| by vm_compute in Hexp].
  exists s'. destruct (Hexpiry 1%positive s' Hexp) as ((_ & _ & Hnav & _) & (Htm & _) & _).
  split_and!; [done | reflexivity | done | done].
Defined.

(** ** The API client *)

(** C8, as stated, fails: with no token in the secure store, as when the
    login request is sent, the request leaves without an [Authorization]
    header. *)
Lemma no_token_no_authorization_header :
  ApiClient.headers (ApiClient.requestInterceptor ∅ loginRequest)
    !! "Authorization" = None.
Proof. by vm_compute. Qed.

(** C8, amended.  For every request sent through the HTTP client while a
    non-empty token is stored, the header [Authorization] is set to
    "Bearer " followed by the stored token before the request is issued,
    the other headers and the method being kept; while no token (or an
    empty one) is stored, the headers are left as they are. *)
Theorem bearer_header_when_token_stored
    (store : gmap string string) (config : ApiClient.Config) (token : string) :
  (store !! "token" = Some token → token ≠ "" →
     ApiClient.headers (ApiClient.requestInterceptor store config)
       !! "Authorization" = Some ("Bearer " +:+ token) ∧
     (∀ name, name ≠ "Authorization" →
        ApiClient.headers (ApiClient.requestInterceptor store config) !! name
        = ApiClient.headers config !! name) ∧
     ApiClient.method (ApiClient.requestInterceptor store config)
       = ApiClient.method config) ∧
  (store !! "token" = None ∨ store !! "token" = Some "" →
     ApiClient.headers (ApiClient.requestInterceptor store config)
       = ApiClient.headers config).
Proof.
  unfold ApiClient.requestInterceptor. split.
  - intros Htoken Hne. rewrite Htoken. simpl.
    assert (Hnonempty : (token =? "")%string = false)
      by (by apply String.eqb_neq).
    rewrite Hnonempty. simpl. split_and!.
    + by rewrite lookup_insert_eq.
    + intros name Hname. rewrite lookup_insert_ne by done.
      destruct config as [[u|] m hs]; simpl; [| done].
      by destruct (negb (u =? "")%string).
    + destruct config as [[u|] m hs]; simpl; [| done].
      by destruct (negb (u =? "")%string).
  - intros [-> | ->]; simpl;
      (destruct config as [[u|] m hs]; simpl; [| done]);
      by destruct (negb (u =? "")%string).
Qed.

Lemma bearer_header_when_token_stored_witness :
  ApiClient.headers (ApiClient.requestInterceptor signedInStore foldersRequest)
    !! "Authorization" = Some "Bearer 3|kZ8cQpL".
Proof.
  destruct (bearer_header_when_token_stored signedInStore foldersRequest
              "3|kZ8cQpL") as [Hset _].
  destruct Hset as (Hauth & _ & _); [reflexivity | discriminate |].
  exact Hauth.
Defined.

(** C10.  For every response with status 401, the error handler of the
    response interceptor deletes the stored token and still rejects with
    the error it was given. *)
Theorem unauthorized_clears_token_and_rejects
    (error : ApiClient.AxiosError) (r : ApiClient.Response)
    (store : gmap string string) :
  ApiClient.response error = Some r →
  ApiClient.status r = 401 →
  ApiClient.responseErrorInterceptor error store =
    (delete "token" store, ApiClient.RejectedWith error) ∧
  (ApiClient.responseErrorInterceptor error store).1 !! "token" = None.
Proof.
  intros Hr Hstatus. unfold ApiClient.responseErrorInterceptor.
  rewrite Hr, Hstatus. simpl. split; [done |]. apply lookup_delete_eq.
Qed.

Lemma unauthorized_clears_token_and_rejects_witness :
  ApiClient.responseErrorInterceptor unauthorized signedInStore =
    (delete "token" signedInStore, ApiClient.RejectedWith unauthorized).
Proof.
  apply (unauthorized_clears_token_and_rejects unauthorized
           (ApiClient.mkResponse 401) signedInStore); reflexivity.
Defined.

(** * Further properties of the image preparation *)

Section ResizeRequest.

Lemma Math_round_div_nonneg (n d : Z) :
  0 ≤ n → 0 < d → 0 ≤ JS.Math_round (inject_Z n / inject_Z d)%Q.
Proof.
  intros Hn Hd. rewrite Math_round_div by done. apply Z.div_pos; lia.
Qed.

(** Scaling by a factor below one does not grow a side. *)
Lemma Math_round_div_shrinks (x longer : Z) :
  0 < x → MAX_DIMENSION < longer →
  JS.Math_round (inject_Z (x * MAX_DIMENSION) / inject_Z longer)%Q ≤ x.
Proof.
  unfold MAX_DIMENSION. intros Hx Hl. rewrite Math_round_div by lia.
  apply Z.lt_succ_r, Z.div_lt_upper_bound; nia.
Qed.

(** The rounded quotient is zero exactly below one half. *)
Lemma Math_round_div_zero (n d : Z) :
  0 ≤ n → 0 < d →
  JS.Math_round (inject_Z n / inject_Z d)%Q = 0 ↔ 2 * n < d.
Proof.
  intros Hn Hd. rewrite Math_round_div by done. split.
  - intros H0. apply Z.div_small_iff in H0; lia.
  - intros Hlt. apply Z.div_small. lia.
Qed.

End ResizeRequest.

(** The resize request never asks for more than 1200 px on a side and
    never for more than the asset has (1000 standing for a missing
    dimension): [processImage] only ever scales down. *)
Theorem resize_request_never_upscales (a : Asset) :
  0 ≤ m_width (manipRequestFor a) ≤ 1200 ∧
  0 ≤ m_height (manipRequestFor a) ≤ 1200 ∧
  m_width (manipRequestFor a) ≤ JS.orElse (width a) 1000 ∧
  m_height (manipRequestFor a) ≤ JS.orElse (height a) 1000.
Proof.
  pose proof (manipRequestFor_dimensions a) as Hdim.
  pose proof (resizeDimensions_bounds a) as [Hw Hh].
  destruct (manipRequestFor a) as [u mw mh q]. simpl in *.
  rewrite <- Hdim in Hw, Hh. simpl in Hw, Hh. unfold MAX_DIMENSION in *.
  split; [done |]. split; [done |].
  revert Hdim. unfold resizeDimensions.
  pose proof (orElse_pos (width a) 1000 ltac:(lia)) as Hpw.
  pose proof (orElse_pos (height a) 1000 ltac:(lia)) as Hph.
  set (w := JS.orElse (width a) 1000) in *.
  set (h := JS.orElse (height a) 1000) in *.
  destruct (Z.ltb_spec h w), (Z.ltb_spec MAX_DIMENSION w),
    (Z.ltb_spec MAX_DIMENSION h); simpl; intros [= -> ->];
    unfold MAX_DIMENSION in *; split; try lia;
    by apply Math_round_div_shrinks.
Qed.

(** An asset that fits in 1200 x 1200 keeps its dimensions in the resize
    request: a large file of small dimensions is only recompressed. *)
Theorem small_dimensions_kept (a : Asset) (w h : positive) :
  width a = Some w →
  height a = Some h →
  Z.pos w ≤ 1200 →
  Z.pos h ≤ 1200 →
  m_width (manipRequestFor a) = Z.pos w ∧
  m_height (manipRequestFor a) = Z.pos h.
Proof.
  intros Hw Hh Hwle Hhle.
  pose proof (manipRequestFor_dimensions a) as Hdim.
  rewrite (resizeDimensions_known a w h Hw Hh) in Hdim.
  unfold MAX_DIMENSION in Hdim.
  destruct (Z.ltb_spec 1200 (Z.pos w)); [lia |].
  destruct (Z.ltb_spec 1200 (Z.pos h)); [lia |].
  rewrite andb_false_r in Hdim. by injection Hdim.
Qed.

Lemma small_dimensions_kept_witness :
  m_width (manipRequestFor squareAsset) = 800 ∧
  m_height (manipRequestFor squareAsset) = 800.
Proof.
  apply (small_dimensions_kept squareAsset 800%positive 800%positive);
    (reflexivity || lia).
Defined.

(** The scaled side of a resize request is 0 exactly when the longer side
    is more than 2400 times the other: an extreme aspect ratio makes
    [processImage] ask for an image with an empty side. *)
Theorem extreme_ratio_gives_empty_side (a : Asset) (w h : positive) :
  width a = Some w →
  height a = Some h →
  (Z.pos w ≤ Z.pos h → 1200 < Z.pos h →
     (m_width (manipRequestFor a) = 0 ↔ 2400 * Z.pos w < Z.pos h)) ∧
  (Z.pos h < Z.pos w → 1200 < Z.pos w →
     (m_height (manipRequestFor a) = 0 ↔ 2400 * Z.pos h < Z.pos w)).
Proof.
  intros Hw Hh.
  pose proof (manipRequestFor_dimensions a) as Hdim.
  rewrite (resizeDimensions_known a w h Hw Hh) in Hdim.
  unfold MAX_DIMENSION in Hdim.
  split; intros Hcmp Hlong.
  - assert (Hc1 : (Z.pos h <? Z.pos w) = false) by (apply Z.ltb_ge; lia).
    apply Z.ltb_lt in Hlong as Hc2.
    rewrite Hc1, Hc2 in Hdim. simpl in Hdim. injection Hdim as -> _.
    rewrite Math_round_div_zero; lia.
  - apply Z.ltb_lt in Hcmp as Hc1. apply Z.ltb_lt in Hlong as Hc2.
    rewrite Hc1, Hc2 in Hdim. simpl in Hdim. injection Hdim as _ ->.
    rewrite Math_round_div_zero; lia.
Qed.

Lemma extreme_ratio_gives_empty_side_witness :
  m_width (manipRequestFor stripAsset) = 0.
Proof.
  destruct (extreme_ratio_gives_empty_side stripAsset 2%positive
              5000%positive) as [Htall _]; [reflexivity | reflexivity |].
  apply Htall; lia.
Defined.

(** On a screen that is mounted when [processImage] is called and when
    the manipulation settles, the processing flag is down when
    [processImage] returns, whatever the picker handed over and however
    the manipulation ended. *)
Theorem processing_flag_lowered_on_return
    (manipulateAsync : ManipRequest → ManipOutcome) (between : Screen → Screen)
    (imageResult : option ImageResult) (s : Screen) :
  mountedRef s = true →
  processingImage s = false →
  mountedRef (between (processImage_begin imageResult s).2) = true →
  processingImage
    (processImage manipulateAsync between imageResult s).2 = false.
Proof.
  intros Hm Hp. unfold processImage.
  destruct (processImage_begin imageResult s) as [[result | req] s1] eqn:Hb;
    simpl.
  - intros _. revert Hb. unfold processImage_begin, safeSetState.
    destruct s as [ci ld pi nav up ref m fid tm nt sc rq nr al mn nv].
    simpl in Hm, Hp. subst m pi.
    destruct imageResult as [r|]; [| by intros [= _ <-]].
    destruct (canceled r || emptyAssets r); [by intros [= _ <-] |].
    simpl.
    destruct (selectAsset r) as [a|]; [| by intros [= _ <-]].
    destruct (smallEnough a); [by intros [= _ <-] | done].
  - intros Hm1. unfold processImage_resume, safeSetState, showAlert.
    destruct (between s1) as [ci ld pi nav up ref m fid tm nt sc rq nr al mn nv].
    simpl in Hm1. subst m. by destruct (manipulateAsync req).
Qed.

Lemma processing_flag_lowered_on_return_witness :
  processingImage
    (processImage (λ _, Rejected "out of memory") id
       (Some (pickerResult landscapeAsset))
       (initialScreen (Some 7%positive))).2 = false.
Proof.
  apply (processing_flag_lowered_on_return (λ _, Rejected "out of memory") id
           (Some (pickerResult landscapeAsset))
           (initialScreen (Some 7%positive))); reflexivity.
Defined.

(** [processImage] returns an asset in two ways only: the asset it was
    handed, when that one is small enough, or the manipulator's answer with
    its size filled in, when the manipulation succeeded and the screen is
    still mounted.  A null, canceled or empty result, a rejection or an
    unmounted screen never yields an asset. *)
Theorem processed_asset_origin
    (manipulateAsync : ManipRequest → ManipOutcome) (between : Screen → Screen)
    (imageResult : option ImageResult) (s : Screen) (out : Asset) :
  (processImage manipulateAsync between imageResult s).1 = Some out →
  ∃ r a,
    imageResult = Some r ∧ carries r a ∧
    ((smallEnough a = true ∧ out = a) ∨
     (smallEnough a = false ∧
      ∃ manipResult,
        manipulateAsync (manipRequestFor a) = Resolved manipResult ∧
        out = withFileSize (manipRequestFor a) manipResult ∧
        mountedRef (between (processImage_begin imageResult s).2) = true)).
Proof.
  unfold processImage.
  destruct imageResult as [r|]; [| done].
  unfold processImage_begin.
  destruct (canceled r) eqn:Hc; [done |].
  destruct (emptyAssets r) eqn:He; [done |]. simpl.
  destruct (selectAsset r) as [a|] eqn:Ha; [| done].
  destruct (smallEnough a) eqn:Hsmall; simpl.
  - intros [= <-]. exists r, a. split_and!; try done. by left.
  - unfold processImage_resume.
    destruct (manipulateAsync (manipRequestFor a)) as [mr|e] eqn:Hmanip.
    + destruct (mountedRef (between _)) eqn:Hm; simpl; [| done].
      intros [= <-]. exists r, a. split_and!; try done. right.
      split; [done |]. by exists mr.
    + by destruct (mountedRef (between _)).
Qed.

Lemma processed_asset_origin_witness :
  ∃ r a,
    Some (pickerResult smallAsset) = Some r ∧ carries r a ∧
    ((smallEnough a = true ∧ smallAsset = a) ∨
     (smallEnough a = false ∧
      ∃ manipResult,
        Rejected "unused" = Resolved manipResult ∧
        smallAsset = withFileSize (manipRequestFor a) manipResult ∧
        mountedRef (processImage_begin (Some (pickerResult smallAsset))
                      (initialScreen (Some 7%positive))).2 = true)).
Proof.
  apply (processed_asset_origin (λ _, Rejected "unused") id
           (Some (pickerResult smallAsset)) (initialScreen (Some 7%positive))
           smallAsset).
  reflexivity.
Defined.

(** * Further properties of the screen *)

Section Guards.

Lemma busy_cases (s : Screen) :
  isOperationInProgress s = true →
  loading s || processingImage s || uploadingRef s = true ∨
  isNavigating s = true.
Proof.
  unfold isOperationInProgress.
  destruct (loading s), (processingImage s), (isNavigating s),
    (uploadingRef s); simpl; auto.
Qed.

Lemma resume_requests (id folder : positive) (outcome : UploadOutcome)
    (s : Screen) :
  requests (uploadImage_resume id folder outcome s) = delete id (requests s) ∧
  nextRequest (uploadImage_resume id folder outcome s) = nextRequest s.
Proof.
  unfold uploadImage_resume, resetAllStates, clearNavigationTimeout,
    safeSetState, showAlert, navigate, clearTimeout.
  destruct s as [ci ld pi nav up [h|] [] fid tm nt sc rq nr al mn nv];
    destruct outcome; simpl; try done; by case_bool_decide.
Qed.

(** What a raised guard blocks. *)
Lemma handlers_blocked_after (s : Screen) :
  isOperationInProgress s = true →
  handleNavigateBack s = s ∧
  handleCaptureCancel s = s ∧
  onBackPress s = s ∧
  (∀ now, navigations (uploadImage_begin now s).2 = navigations s ∧
          requests (uploadImage_begin now s).2 = requests s).
Proof.
  intros Hbusy. unfold handleCaptureCancel, handleNavigateBack, onBackPress,
    uploadImage_begin.
  rewrite Hbusy. split_and!; try done.
  - destruct (busy_cases s Hbusy) as [-> | Hnav]; [done |].
    rewrite Hnav.
    by destruct (loading s || processingImage s || uploadingRef s).
  - intros now. by destruct (capturedImage s), (folderId s).
Qed.

End Guards.

(** While the guard [isOperationInProgress] holds, the other handlers are
    blocked as well: the picker is not opened, and cancelling, going back
    and the hardware back button leave the screen exactly as it is. *)
Theorem handlers_blocked_while_busy (s : Screen) :
  isOperationInProgress s = true →
  takePicture_begin s = false ∧
  handleCaptureCancel s = s ∧
  handleNavigateBack s = s ∧
  onBackPress s = s.
Proof.
  intros Hbusy. unfold takePicture_begin, handleCaptureCancel,
    handleNavigateBack, onBackPress.
  rewrite Hbusy. split_and!; try done.
  destruct (busy_cases s Hbusy) as [-> | Hnav]; [done |].
  rewrite Hnav. by destruct (loading s || processingImage s || uploadingRef s).
Qed.

Lemma handlers_blocked_while_busy_witness :
  takePicture_begin uploadingScreen = false ∧
  handleCaptureCancel uploadingScreen = uploadingScreen ∧
  handleNavigateBack uploadingScreen = uploadingScreen ∧
  onBackPress uploadingScreen = uploadingScreen.
Proof.
  apply (handlers_blocked_while_busy uploadingScreen). reflexivity.
Defined.

(** Going back from an idle, mounted screen navigates exactly once (to the
    folder when there is one, back otherwise) and raises the navigating
    flag, after which going back again, cancelling, the back button and
    the upload handler do nothing: no duplicate navigation. *)
Theorem navigation_issued_once (s : Screen) :
  mountedRef s = true →
  isOperationInProgress s = false →
  let s1 := handleNavigateBack s in
  navigations s1 =
    navigations s ++
      [match folderId s with
       | Some folder => NavReplace "FolderDetail" folder false
       | None => NavGoBack
       end] ∧
  isNavigating s1 = true ∧
  handleNavigateBack s1 = s1 ∧
  handleCaptureCancel s1 = s1 ∧
  onBackPress s1 = s1 ∧
  (∀ now, navigations (uploadImage_begin now s1).2 = navigations s1 ∧
          requests (uploadImage_begin now s1).2 = requests s1).
Proof.
  intros Hm Hidle. cbv zeta.
  assert (Hs1 : handleNavigateBack s =
                navigate (match folderId s with
                          | Some folder => NavReplace "FolderDetail" folder false
                          | None => NavGoBack
                          end) (setIsNavigating true s)).
  { unfold handleNavigateBack, safeSetState. rewrite Hidle, Hm. simpl.
    by destruct (folderId s). }
  assert (Hbusy : isOperationInProgress (handleNavigateBack s) = true).
  { rewrite Hs1. unfold isOperationInProgress, navigate. simpl.
    by rewrite !orb_true_r. }
  destruct (handlers_blocked_after (handleNavigateBack s) Hbusy)
    as (Hback & Hcancel & Hpress & Hupload).
  split_and!; try done.
  - by rewrite Hs1.
  - by rewrite Hs1.
Qed.

Lemma navigation_issued_once_witness :
  navigations (handleNavigateBack (initialScreen (Some 7%positive))) =
    [NavReplace "FolderDetail" 7 false] ∧
  handleNavigateBack (handleNavigateBack (initialScreen (Some 7%positive))) =
    handleNavigateBack (initialScreen (Some 7%positive)).
Proof.
  destruct (navigation_issued_once (initialScreen (Some 7%positive)))
    as (Hnav & _ & Hagain & _); [reflexivity | reflexivity |].
  split; [exact Hnav | exact Hagain].
Defined.

(** ** Uploads *)

(** On a screen whose requests in flight are numbered below the next one,
    an accepted upload takes a number no pending request has, raises the
    guard, and, however it settles, leaves the table of requests in flight
    as it was before the upload started. *)
Theorem upload_round_trip
    (now : string) (image : Asset) (folder : positive) (s : Screen) :
  requestsNumbered s →
  capturedImage s = Some image →
  folderId s = Some folder →
  isOperationInProgress s = false →
  ∃ s1,
    uploadImage_begin now s = (AwaitUpload (nextRequest s) folder, s1) ∧
    requests s !! nextRequest s = None ∧
    requests s1 =
      <[nextRequest s := mkFormData image folder ("Image " +:+ now)]>
        (requests s) ∧
    isOperationInProgress s1 = true ∧
    ∀ outcome,
      requests (uploadImage_resume (nextRequest s) folder outcome s1)
      = requests s.
Proof.
  intros Hnum Himage Hfolder Hidle.
  assert (Hfresh : requests s !! nextRequest s = None).
  { destruct (requests s !! nextRequest s) eqn:Hl; [| done].
    assert (nextRequest s < nextRequest s)%positive by (apply Hnum; eauto).
    lia. }
  unfold uploadImage_begin. rewrite Himage, Hfolder, Hidle.
  unfold safeSetState, isOperationInProgress in *.
  destruct s as [ci ld pi nav up ref m fid tm nt sc rq nr al mn nv].
  simpl in *. subst.
  destruct m; simpl; eexists; (split; [reflexivity |]); simpl;
    (split_and!; [done | done | by rewrite ?orb_true_r |]);
    intros outcome;
    match goal with
    | |- requests (uploadImage_resume ?id ?f ?o ?s1) = _ =>
      destruct (resume_requests id f o s1) as [-> _]
    end; simpl; by apply delete_insert_id.
Qed.

Lemma upload_round_trip_witness :
  requests
    (uploadImage_resume 1 7 UploadResolved
       (uploadImage_begin "1/11/2026, 9:59:58" capturedScreen).2)
  = requests capturedScreen ∧
  requests
    (uploadImage_resume 1 7 (UploadRejected (Some 413))
       (uploadImage_begin "1/11/2026, 9:59:58" capturedScreen).2)
  = requests capturedScreen.
Proof.
  destruct (upload_round_trip "1/11/2026, 9:59:58" smallAsset 7%positive
              capturedScreen) as (s1 & Hbegin & _ & _ & _ & Hsettled).
  - intros id [? Hid]. by vm_compute in Hid.
  - reflexivity.
  - reflexivity.
  - reflexivity.
  - rewrite Hbegin. split; apply Hsettled.
Defined.

(** A failed upload on a mounted screen shows exactly one alert ("Image Too
    Large" for status 413, "Upload Failed" otherwise), navigates nowhere,
    keeps the captured image and lowers the guard, so that the user can try
    again: the next call of [uploadImage] is accepted. *)
Theorem failed_upload_allows_retry
    (id folder : positive) (status : option Z) (image : Asset)
    (now : string) (s : Screen) :
  mountedRef s = true →
  capturedImage s = Some image →
  folderId s = Some folder →
  let s2 := uploadImage_resume id folder (UploadRejected status) s in
  alerts s2 =
    alerts s ++
      [if bool_decide (status = Some 413)
       then mkAlert "Image Too Large"
              "The image is still too large to upload. Please try using a different image."
       else mkAlert "Upload Failed"
              "Unable to save your image. Please try again later."] ∧
  navigations s2 = navigations s ∧
  capturedImage s2 = Some image ∧
  isOperationInProgress s2 = false ∧
  (uploadImage_begin now s2).1 = AwaitUpload (nextRequest s) folder.
Proof.
  intros Hm Himage Hfolder.
  unfold uploadImage_resume, uploadImage_begin, resetAllStates,
    clearNavigationTimeout, safeSetState, showAlert, navigate, clearTimeout,
    isOperationInProgress.
  destruct s as [ci ld pi nav up [h|] m fid tm nt sc rq nr al mn nv];
    simpl in *; subst; by case_bool_decide.
Qed.

Lemma failed_upload_allows_retry_witness :
  let s2 := uploadImage_resume 1 7 (UploadRejected (Some 413)) uploadingScreen in
  alerts s2 =
    [mkAlert "Image Too Large"
       "The image is still too large to upload. Please try using a different image."] ∧
  isOperationInProgress s2 = false ∧
  (uploadImage_begin "1/11/2026, 10:01:00" s2).1 = AwaitUpload 2 7.
Proof.
  destruct (failed_upload_allows_retry 1%positive 7%positive (Some 413)
              smallAsset "1/11/2026, 10:01:00" uploadingScreen)
    as (Halert & _ & _ & Hidle & Hretry); [reflexivity ..|].
  split_and!; [exact Halert | exact Hidle | exact Hretry].
Defined.

(** A successful upload on a mounted screen clears the safety timer,
    navigates exactly once, to the folder with [refresh] set, shows no
    alert, and leaves the guard up: until the screen is left, a further
    upload or navigation is ignored. *)
Theorem successful_upload_navigates_once
    (id folder : positive) (s : Screen) :
  mountedRef s = true →
  let s2 := uploadImage_resume id folder UploadResolved s in
  navigations s2 = navigations s ++ [NavReplace "FolderDetail" folder true] ∧
  alerts s2 = alerts s ∧
  navigationTimeoutRef s2 = None ∧
  (∀ h, navigationTimeoutRef s = Some h → timers s2 !! h = None) ∧
  isOperationInProgress s2 = true ∧
  handleNavigateBack s2 = s2 ∧
  (∀ now, navigations (uploadImage_begin now s2).2 = navigations s2 ∧
          requests (uploadImage_begin now s2).2 = requests s2).
Proof.
  intros Hm. cbv zeta.
  assert (Hbusy : isOperationInProgress
                    (uploadImage_resume id folder UploadResolved s) = true).
  { unfold uploadImage_resume, clearNavigationTimeout, safeSetState, navigate,
      clearTimeout, isOperationInProgress.
    destruct s as [ci ld pi nav up [h|] m fid tm nt sc rq nr al mn nv];
      simpl in *; subst; simpl; by rewrite !orb_true_r. }
  destruct (handlers_blocked_after _ Hbusy) as (Hback & _ & _ & Hupload).
  split_and!; try done;
    unfold uploadImage_resume, clearNavigationTimeout, safeSetState, navigate,
      clearTimeout;
    destruct s as [ci ld pi nav up [h|] m fid tm nt sc rq nr al mn nv];
    simpl in *; subst; simpl; try done.
  intros h' [= <-]. apply lookup_delete_eq.
Qed.

Lemma successful_upload_navigates_once_witness :
  navigations (uploadImage_resume 1 7 UploadResolved slowUploadScreen) =
    [NavReplace "FolderDetail" 7 true] ∧
  isOperationInProgress
    (uploadImage_resume 1 7 UploadResolved slowUploadScreen) = true.
Proof.
  destruct (successful_upload_navigates_once 1%positive 7%positive
              slowUploadScreen) as (Hnav & _ & _ & _ & Hbusy & _);
    [reflexivity |].
  split; [exact Hnav | exact Hbusy].
Defined.

(** ** Invariants of the reachable screens *)

Section Invariants.

Lemma requestsNumbered_frame (s s' : Screen) :
  requests s' = requests s → nextRequest s' = nextRequest s →
  requestsNumbered s → requestsNumbered s'.
Proof. unfold requestsNumbered. by intros -> ->. Qed.

Ltac solve_requests_frame s H :=
  eapply requestsNumbered_frame; [.. | exact H];
  unfold rerunSafetyEffect, safetyEffect, setTimeout, unmount, onBlur,
    onFocus, takePicture_picked, processImage_begin, processImage_resume,
    takePicture_finish, takePicture_failed, onBackPress, handleCaptureCancel,
    handleNavigateBack, permissionsDenied_onPress, resetAllStates,
    clearNavigationTimeout, clearTimeout, isOperationInProgress,
    safeSetState, showAlert, navigate;
  destruct s as [? ? ? ? ? [?|] [] ? ? ? ? ? ? ? ? ?]; simpl;
  repeat (case_match; simpl); done.

Lemma step_requestsNumbered (s s' : Screen) :
  step s s' → requestsNumbered s → requestsNumbered s'.
Proof.
  intros Hstep H. destruct Hstep as
    [s Hm | s h s' Hexp | s Hm | s | s | result s | req outcome s | image s
    | title message s | now s | id folder outcome s | s | s | s | s].
  - solve_requests_frame s H.
  - unfold timerExpires in Hexp.
    destruct (timers s !! h); [| done]. injection Hexp as <-.
    solve_requests_frame s H.
  - solve_requests_frame s H.
  - solve_requests_frame s H.
  - solve_requests_frame s H.
  - solve_requests_frame s H.
  - solve_requests_frame s H.
  - solve_requests_frame s H.
  - solve_requests_frame s H.
  - unfold uploadImage_begin.
    destruct (capturedImage s) as [image|];
      [| eapply requestsNumbered_frame; [.. | exact H]; done].
    destruct (folderId s) as [folder|];
      [| eapply requestsNumbered_frame; [.. | exact H]; done].
    destruct (isOperationInProgress s); [done |].
    unfold requestsNumbered, safeSetState in *.
    destruct s as [ci ld pi nav up ref [] fid tm nt sc rq nr al mn nv];
      simpl in *; intros id [x Hx];
      (destruct (decide (id = nr)) as [-> | Hne];
       [lia | rewrite lookup_insert_ne in Hx by done;
              assert (id < nr)%positive by eauto; lia]).
  - destruct (resume_requests id folder outcome s) as [Hreq Hnext].
    unfold requestsNumbered in *. rewrite Hreq, Hnext.
    intros id' [x Hx]. apply H.
    destruct (decide (id = id')) as [-> | Hne].
    + by rewrite lookup_delete_eq in Hx.
    + rewrite lookup_delete_ne in Hx by done. eauto.
  - solve_requests_frame s H.
  - solve_requests_frame s H.
  - solve_requests_frame s H.
  - solve_requests_frame s H.
Qed.

Lemma timerHeld_frame (s s' : Screen) :
  timers s' = timers s →
  mountedRef s' = mountedRef s →
  safetyCleanup s' = safetyCleanup s →
  navigationTimeoutRef s' = navigationTimeoutRef s →
  timerHeld s → timerHeld s'.
Proof. unfold timerHeld. by intros -> -> -> ->. Qed.

Lemma clearNavigationTimeout_held (s : Screen) :
  timerHeld s →
  navigationTimeoutRef (clearNavigationTimeout s) = None ∧
  timers (clearNavigationTimeout s) = ∅.
Proof.
  unfold timerHeld, clearNavigationTimeout, clearTimeout.
  destruct (navigationTimeoutRef s) as [h|] eqn:Href; simpl.
  - intros (_ & _ & ->). split; [done |]. apply delete_singleton_eq.
  - by rewrite Href.
Qed.

Lemma resetAllStates_held (s : Screen) :
  timerHeld s → timerHeld (resetAllStates s).
Proof.
  intros H. unfold resetAllStates.
  destruct (mountedRef s) eqn:Hm; [| done].
  destruct (clearNavigationTimeout_held s H) as [Href Htm].
  revert Href Htm. unfold timerHeld, clearNavigationTimeout, safeSetState.
  destruct s as [ci ld pi nav up [h|] m fid tm nt sc rq nr al mn nv];
    simpl in *; subst; simpl; done.
Qed.

Ltac solve_held_frame s H :=
  eapply timerHeld_frame; [.. | exact H];
  unfold onFocus, takePicture_picked, processImage_begin,
    processImage_resume, takePicture_finish, takePicture_failed,
    uploadImage_begin, onBackPress, handleCaptureCancel, handleNavigateBack,
    permissionsDenied_onPress, isOperationInProgress, safeSetState,
    showAlert, navigate;
  destruct s as [? ? ? ? ? ? [] ? ? ? ? ? ? ? ? ?]; simpl;
  repeat (case_match; simpl); done.

Lemma step_timerHeld (s s' : Screen) :
  step s s' → timerHeld s → timerHeld s'.
Proof.
  intros Hstep H. destruct Hstep as
    [s Hm | s h s' Hexp | s Hm | s | s | result s | req outcome s | image s
    | title message s | now s | id folder outcome s | s | s | s | s].
  - unfold rerunSafetyEffect.
    set (s0 := if safetyCleanup s then clearNavigationTimeout s else s).
    assert (H0 : navigationTimeoutRef s0 = None ∧ timers s0 = ∅ ∧
                 mountedRef s0 = true).
    { subst s0. destruct (safetyCleanup s) eqn:Hc.
      - destruct (clearNavigationTimeout_held s H) as [? ?].
        split_and!; [done | done |].
        unfold clearNavigationTimeout. by destruct (navigationTimeoutRef s).
      - unfold timerHeld in H.
        destruct (navigationTimeoutRef s); [| done].
        destruct H as (_ & ? & _). congruence. }
    destruct H0 as (Href & Htm & Hm0). clearbody s0.
    unfold safetyEffect, setTimeout, timerHeld.
    destruct (isNavigating s0 || loading s0 || processingImage s0
              || uploadingRef s0); simpl; [| by rewrite Href].
    split_and!; [done | done |]. by rewrite Htm, insert_empty.
  - unfold timerExpires in Hexp.
    destruct (timers s !! h) as [delay|] eqn:Hh; [| done].
    injection Hexp as <-.
    unfold timerHeld, resetAllStates, clearNavigationTimeout, safeSetState,
      clearTimeout in *.
    destruct s as [ci ld pi nav up [h'|] m fid tm nt sc rq nr al mn nv];
      simpl in *.
    + destruct H as (-> & -> & ->). simpl.
      apply lookup_singleton_Some in Hh as [<- _].
      by rewrite delete_singleton_eq, delete_empty.
    + subst tm. by rewrite lookup_empty in Hh.
  - unfold unmount, timerHeld, clearNavigationTimeout, clearTimeout in *.
    destruct s as [ci ld pi nav up [h'|] m fid tm nt sc rq nr al mn nv];
      simpl in *.
    + destruct H as (_ & -> & ->). simpl.
      by rewrite delete_singleton_eq, delete_empty.
    + subst tm. by destruct sc.
  - by apply resetAllStates_held.
  - solve_held_frame s H.
  - solve_held_frame s H.
  - solve_held_frame s H.
  - solve_held_frame s H.
  - solve_held_frame s H.
  - solve_held_frame s H.
  - unfold uploadImage_resume.
    set (s0 := setRequests _ s).
    assert (H0 : timerHeld s0)
      by (eapply timerHeld_frame; [.. | exact H]; done).
    clearbody s0. destruct outcome.
    + destruct (mountedRef s0) eqn:Hm; simpl; [| done].
      unfold timerHeld, clearNavigationTimeout, safeSetState, navigate,
        clearTimeout in *.
      destruct s0 as [ci ld pi nav up [h'|] m fid tm nt sc rq nr al mn nv];
        simpl in *; subst; simpl; [| done].
      destruct H0 as (_ & _ & ->). apply delete_singleton_eq.
    + destruct (mountedRef s0) eqn:Hm; simpl; [| done].
      apply resetAllStates_held.
      eapply timerHeld_frame; [.. | exact H0];
        unfold showAlert; by case_bool_decide.
  - solve_held_frame s H.
  - solve_held_frame s H.
  - solve_held_frame s H.
  - solve_held_frame s H.
Qed.

(** The two invariants hold on every screen the application can reach. *)
Lemma reachable_invariants (s : Screen) :
  reachable s → requestsNumbered s ∧ timerHeld s.
Proof.
  induction 1 as [folder | s s' _ [IHr IHt] Hstep].
  - split; [| done]. intros id [x Hx]. simpl in Hx.
    by rewrite lookup_empty in Hx.
  - split; [by eapply step_requestsNumbered | by eapply step_timerHeld].
Qed.

Lemma one_timer_when_unmounted (s : Screen) :
  reachable s → mountedRef s = false → timers s = ∅.
Proof.
  intros Hreach Hm. destruct (reachable_invariants s Hreach) as [_ Hheld].
  unfold timerHeld in Hheld.
  destruct (navigationTimeoutRef s); [| done].
  destruct Hheld as (? & _). congruence.
Qed.

End Invariants.

(** On every screen the application can reach, at most one timer is
    pending: it is a safety timer of 5000 ms, the ref holds its handle and
    the screen is mounted.  Conversely a non-null ref always holds the
    pending timer, and an unmounted screen has no timer left. *)
Theorem one_safety_timer_pending (s : Screen) :
  reachable s →
  (∀ h delay, timers s !! h = Some delay →
     delay = 5000 ∧ navigationTimeoutRef s = Some h ∧ mountedRef s = true) ∧
  (∀ h, navigationTimeoutRef s = Some h → timers s = {[ h := 5000 ]}) ∧
  (mountedRef s = false → timers s = ∅).
Proof.
  intros Hreach. destruct (reachable_invariants s Hreach) as [_ Hheld].
  unfold timerHeld, SAFETY_TIMEOUT in Hheld.
  destruct (navigationTimeoutRef s) as [h0|].
  - destruct Hheld as (Hm & _ & Htm). rewrite Htm. split_and!.
    + intros h delay Hh. apply lookup_singleton_Some in Hh as [<- <-]. done.
    + by intros h [= <-].
    + congruence.
  - rewrite Hheld. split_and!; [| done | done].
    intros h delay Hh. by rewrite lookup_empty in Hh.
Qed.

Lemma one_safety_timer_pending_witness :
  timers slowUploadScreen = {[ 1%positive := 5000 ]} ∧
  navigationTimeoutRef slowUploadScreen = Some 1%positive.
Proof.
  assert (Hreach : reachable slowUploadScreen).
  { apply (reachable_step uploadingScreen); [| by apply step_render].
    eapply reachable_step; [| apply step_upload].
    eapply reachable_step; [| apply step_captured].
    apply reachable_init. }
  destruct (one_safety_timer_pending slowUploadScreen Hreach)
    as (_ & Href & _).
  split; [by apply Href | reflexivity].
Defined.

(** On every screen the application can reach, an accepted upload is
    filed under a number no request in flight has, and the requests in
    flight keep their entries: a new upload never replaces a pending
    one. *)
Theorem upload_never_replaces_pending
    (now : string) (id folder : positive) (s s1 : Screen) :
  reachable s →
  uploadImage_begin now s = (AwaitUpload id folder, s1) →
  requests s !! id = None ∧
  is_Some (requests s1 !! id) ∧
  (∀ id', id' ≠ id → requests s1 !! id' = requests s !! id').
Proof.
  intros Hreach. destruct (reachable_invariants s Hreach) as [Hnum _].
  unfold uploadImage_begin, safeSetState.
  destruct (capturedImage s) as [image|]; [| done].
  destruct (folderId s) as [f|]; [| done].
  destruct (isOperationInProgress s); [done |].
  unfold requestsNumbered in Hnum.
  destruct s as [ci ld pi nav up ref [] fid tm nt sc rq nr al mn nv];
    simpl in *; intros [= <- <- <-]; simpl;
    (split_and!;
     [ destruct (rq !! nr) eqn:Hl; [| done];
       assert (nr < nr)%positive by eauto; lia
     | rewrite lookup_insert_eq; eauto
     | intros id' Hne; by rewrite lookup_insert_ne ]).
Qed.

Lemma upload_never_replaces_pending_witness :
  requests timedOutScreen !! 2%positive = None ∧
  requests (uploadImage_begin "1/11/2026, 10:00:04" timedOutScreen).2
    !! 1%positive = requests timedOutScreen !! 1%positive.
Proof.
  assert (Hreach : reachable timedOutScreen).
  { apply (reachable_step slowUploadScreen);
      [| by apply (step_timer _ 1%positive)].
    apply (reachable_step uploadingScreen); [| by apply step_render].
    eapply reachable_step; [| apply step_upload].
    eapply reachable_step; [| apply step_captured].
    apply reachable_init. }
  destruct (upload_never_replaces_pending "1/11/2026, 10:00:04" 2%positive
              7%positive timedOutScreen
              (uploadImage_begin "1/11/2026, 10:00:04" timedOutScreen).2
              Hreach) as (Hfree & _ & Hkept); [reflexivity |].
  split; [exact Hfree | by apply Hkept].
Defined.

(** Once a screen is unmounted, no step of the application changes one of
    its state cells ([capturedImage], [loading], [processingImage],
    [isNavigating]), and it stays unmounted: [safeSetState] and the
    mounted checks keep every late callback from updating the state. *)
Theorem no_state_update_after_unmount (s s' : Screen) :
  reachable s →
  mountedRef s = false →
  step s s' →
  mountedRef s' = false ∧
  capturedImage s' = capturedImage s ∧
  loading s' = loading s ∧
  processingImage s' = processingImage s ∧
  isNavigating s' = isNavigating s.
Proof.
  intros Hreach Hm Hstep.
  pose proof (one_timer_when_unmounted s Hreach Hm) as Htm.
  destruct Hstep as
    [s Hm' | s h s' Hexp | s Hm' | s | s | result s | req outcome s | image s
    | title message s | now s | id folder outcome s | s | s | s | s];
    try congruence.
  - unfold timerExpires in Hexp. rewrite Htm, lookup_empty in Hexp. done.
  - unfold onBlur, resetAllStates. by rewrite Hm.
  - unfold onFocus, safeSetState. by rewrite Hm.
  - unfold takePicture_picked. by rewrite Hm.
  - unfold processImage_resume. rewrite Hm. by destruct outcome.
  - unfold takePicture_finish. rewrite Hm. by destruct image.
  - unfold takePicture_failed. by rewrite Hm.
  - unfold uploadImage_begin, safeSetState, showAlert. rewrite Hm.
    by repeat case_match.
  - unfold uploadImage_resume. simpl. rewrite Hm. by destruct outcome.
  - unfold handleCaptureCancel, safeSetState, navigate. rewrite Hm.
    by repeat case_match.
  - unfold handleNavigateBack, safeSetState, navigate. rewrite Hm.
    by repeat case_match.
  - unfold onBackPress, handleCaptureCancel, handleNavigateBack,
      safeSetState, navigate. rewrite Hm. by repeat case_match.
  - unfold permissionsDenied_onPress, safeSetState, navigate. by rewrite Hm.
Qed.

Lemma no_state_update_after_unmount_witness :
  loading (uploadImage_resume 1 7 UploadResolved (unmount uploadingScreen))
  = loading (unmount uploadingScreen) ∧
  isNavigating
    (uploadImage_resume 1 7 UploadResolved (unmount uploadingScreen))
  = false.
Proof.
  assert (Hreach : reachable (unmount uploadingScreen)).
  { eapply reachable_step; [| by apply step_unmount].
    eapply reachable_step; [| apply step_upload].
    eapply reachable_step; [| apply step_captured].
    apply reachable_init. }
  destruct (no_state_update_after_unmount (unmount uploadingScreen)
              (uploadImage_resume 1 7 UploadResolved (unmount uploadingScreen))
              Hreach) as (_ & _ & Hloading & _ & Hnav).
  - reflexivity.
  - apply step_uploaded.
  - split; [exact Hloading | by rewrite Hnav].
Defined.

(** * Further properties of the API client *)

Section ImagePaths.

Import ClientHelpers.

Lemma prefix_String (c d : ascii) (p s : string) :
  String.prefix (String c p) (String d s) =
  if ascii_dec c d then String.prefix p s else false.
Proof. reflexivity. Qed.

(** A string starts with ["/"] exactly when its first character is one. *)
Lemma startsWith_slash (p : string) :
  startsWith p "/" = true ↔ ∃ rest, p = String "/" rest.
Proof.
  unfold startsWith. destruct p as [|c p].
  - split; [done | by intros [? ?]].
  - rewrite prefix_String. destruct (ascii_dec "/" c) as [<- | Hc].
    + split; [eauto | by destruct p].
    + split; [done | intros [rest [= ? ?]]; congruence].
Qed.

Lemma startsWith_slash_storage (p : string) :
  startsWith p "/" = false → startsWith p "/storage/" = false.
Proof.
  intros Hslash. apply not_true_is_false. intros Hstorage.
  apply not_true_iff_false in Hslash. apply Hslash, startsWith_slash.
  unfold startsWith in Hstorage. destruct p as [|c p]; [done |].
  rewrite prefix_String in Hstorage.
  destruct (ascii_dec "/" c) as [<- | Hc]; [eauto | done].
Qed.

(** What [getFullImagePath] builds itself is an [http://] address. *)
Lemma based_is_absolute (rest : string) :
  getFullImagePath (Some (API_PROTOCOL +:+ "://" +:+ API_BASE_URL +:+ rest))
  = Some (API_PROTOCOL +:+ "://" +:+ API_BASE_URL +:+ rest).
Proof. reflexivity. Qed.

(** An absolute address goes through [getFullImagePath] unchanged. *)
Lemma getFullImagePath_absolute_again (path : option string) :
  getFullImagePath (getFullImagePath path) = getFullImagePath path.
Proof.
  destruct path as [p|]; [| done].
  assert (Hfixed : ∀ full,
             getFullImagePath (Some p) = Some full →
             getFullImagePath (Some full) = Some full).
  { unfold getFullImagePath at 1.
    destruct (String.eqb p "") eqn:Hempty; [done |].
    destruct (startsWith p "http://" || startsWith p "https://") eqn:Hhttp.
    { intros full [= <-]. unfold getFullImagePath. by rewrite Hempty, Hhttp. }
    destruct (startsWith p "file://") eqn:Hfile.
    { intros full [= <-]. unfold getFullImagePath.
      by rewrite Hempty, Hhttp, Hfile. }
    destruct (startsWith p "/storage/");
      [intros full [= <-]; apply based_is_absolute |].
    destruct (startsWith p "/");
      [intros full [= <-]; apply based_is_absolute |].
    intros full [= <-]. apply (based_is_absolute ("/" +:+ p)). }
  destruct (getFullImagePath (Some p)) as [full|] eqn:Hfull;
    [by apply Hfixed | done].
Qed.

End ImagePaths.

(** [getFullImagePath] is idempotent: a path that has been made absolute
    once comes back unchanged, so a response processed twice does not get
    the server address twice. *)
Theorem getFullImagePath_idempotent (path : option string) :
  ClientHelpers.getFullImagePath (ClientHelpers.getFullImagePath path) =
  ClientHelpers.getFullImagePath path.
Proof. apply getFullImagePath_absolute_again. Qed.

(** [getFullImagePath] answers null exactly for a missing or empty path,
    and any other answer is an absolute address: it starts with
    [http://], [https://] or [file://]. *)
Theorem getFullImagePath_absolute (path : option string) :
  (ClientHelpers.getFullImagePath path = None ↔
     path = None ∨ path = Some "") ∧
  (∀ full, ClientHelpers.getFullImagePath path = Some full →
     ClientHelpers.startsWith full "http://" = true ∨
     ClientHelpers.startsWith full "https://" = true ∨
     ClientHelpers.startsWith full "file://" = true).
Proof.
  destruct path as [p|]; [| split; [by split; auto | done]].
  unfold ClientHelpers.getFullImagePath.
  destruct (String.eqb_spec p "") as [-> | Hne].
  { split; [by split; auto | done]. }
  assert (Hnone : ∀ x : string, Some x = None ↔ Some p = None ∨ Some p = Some "").
  { intros x. split; [done | intros [? | [= ?]]; done]. }
  destruct (ClientHelpers.startsWith p "http://") eqn:Hhttp; simpl.
  { split; [apply Hnone | intros full [= <-]; auto]. }
  destruct (ClientHelpers.startsWith p "https://") eqn:Hhttps; simpl.
  { split; [apply Hnone | intros full [= <-]; auto]. }
  destruct (ClientHelpers.startsWith p "file://") eqn:Hfile.
  { split; [apply Hnone | intros full [= <-]; auto]. }
  destruct (ClientHelpers.startsWith p "/storage/").
  { split; [apply Hnone | intros full [= <-]; by left]. }
  destruct (ClientHelpers.startsWith p "/").
  { split; [apply Hnone | intros full [= <-]; by left]. }
  split; [apply Hnone | intros full [= <-]; by left].
Qed.

(** A relative path is joined to the server address with exactly one
    slash, whether or not it is written with a leading slash. *)
Theorem getFullImagePath_leading_slash (p : string) :
  p ≠ "" →
  ClientHelpers.startsWith p "/" = false →
  ClientHelpers.startsWith p "http://" = false →
  ClientHelpers.startsWith p "https://" = false →
  ClientHelpers.startsWith p "file://" = false →
  ClientHelpers.getFullImagePath (Some p) =
    Some (ClientHelpers.BASE_URL +:+ "/" +:+ p) ∧
  ClientHelpers.getFullImagePath (Some ("/" +:+ p)) =
    Some (ClientHelpers.BASE_URL +:+ "/" +:+ p).
Proof.
  intros Hne Hslash Hhttp Hhttps Hfile. split.
  - unfold ClientHelpers.getFullImagePath.
    apply String.eqb_neq in Hne. rewrite Hne, Hhttp, Hhttps, Hfile, Hslash.
    by rewrite (startsWith_slash_storage p Hslash).
  - change ("/" +:+ p) with (String "/" p).
    assert (H1 : String.eqb (String "/" p) "" = false) by reflexivity.
    assert (H2 : ClientHelpers.startsWith (String "/" p) "http://" = false)
      by reflexivity.
    assert (H3 : ClientHelpers.startsWith (String "/" p) "https://" = false)
      by reflexivity.
    assert (H4 : ClientHelpers.startsWith (String "/" p) "file://" = false)
      by reflexivity.
    assert (H5 : ClientHelpers.startsWith (String "/" p) "/" = true)
      by (apply startsWith_slash; eauto).
    unfold ClientHelpers.getFullImagePath. rewrite H1, H2, H3, H4, H5.
    by destruct (ClientHelpers.startsWith (String "/" p) "/storage/").
Qed.

Lemma getFullImagePath_leading_slash_witness :
  ClientHelpers.getFullImagePath (Some "images/7/photo.jpg") =
    Some "http://10.0.254.15:8000/images/7/photo.jpg" ∧
  ClientHelpers.getFullImagePath (Some "/images/7/photo.jpg") =
    Some "http://10.0.254.15:8000/images/7/photo.jpg".
Proof.
  apply (getFullImagePath_leading_slash "images/7/photo.jpg");
    (discriminate || reflexivity).
Defined.

(** The request interceptor sends an endpoint written with a leading slash
    and the same endpoint written without it as the same request. *)
Theorem leading_slash_same_request
    (store : gmap string string) (p method : string)
    (headers : gmap string string) :
  ClientHelpers.startsWith p "/" = false →
  ApiClient.requestInterceptor store
    (ApiClient.mkConfig (Some ("/" +:+ p)) method headers) =
  ApiClient.requestInterceptor store
    (ApiClient.mkConfig (Some p) method headers).
Proof.
  intros Hslash. unfold ApiClient.requestInterceptor. simpl.
  assert (Hfix : ApiClient.fixEndpointPath p = p).
  { destruct p as [|c p]; [done |].
    assert (Hc : c ≠ "/"%char).
    { intros ->. apply not_true_iff_false in Hslash. apply Hslash.
      apply startsWith_slash. eauto. }
    unfold ApiClient.fixEndpointPath.
    destruct c as [[] [] [] [] [] [] [] []]; done. }
  destruct (String.eqb_spec p "") as [-> | Hne]; simpl; [done |].
  by rewrite Hfix.
Qed.

Lemma leading_slash_same_request_witness :
  ApiClient.requestInterceptor signedInStore
    (ApiClient.mkConfig (Some "/folders") "get" ∅) =
  ApiClient.requestInterceptor signedInStore
    (ApiClient.mkConfig (Some "folders") "get" ∅).
Proof.
  apply (leading_slash_same_request signedInStore "folders" "get" ∅).
  reflexivity.
Defined.

(** Only a 401 touches the secure store: when no response came back, or
    the status is anything else, the error handler leaves the store as it
    is and still rejects with the error it was given. *)
Theorem other_errors_keep_token
    (error : ApiClient.AxiosError) (store : gmap string string) :
  (∀ r, ApiClient.response error = Some r → ApiClient.status r ≠ 401) →
  ApiClient.responseErrorInterceptor error store =
    (store, ApiClient.RejectedWith error).
Proof.
  intros Hstatus. unfold ApiClient.responseErrorInterceptor.
  destruct (ApiClient.response error) as [r|]; [| done].
  specialize (Hstatus r eq_refl).
  by destruct (Z.eqb_spec (ApiClient.status r) 401).
Qed.

Lemma other_errors_keep_token_witness :
  ApiClient.responseErrorInterceptor networkError signedInStore =
    (signedInStore, ApiClient.RejectedWith networkError).
Proof.
  apply (other_errors_keep_token networkError signedInStore).
  intros r Hr. discriminate Hr.
Defined.

(** After a 401 has been handled, the next request leaves without the
    bearer token: the request interceptor finds no token and leaves the
    headers as the caller gave them. *)
Theorem request_unsigned_after_401
    (error : ApiClient.AxiosError) (r : ApiClient.Response)
    (store : gmap string string) (config : ApiClient.Config) :
  ApiClient.response error = Some r →
  ApiClient.status r = 401 →
  ApiClient.headers
    (ApiClient.requestInterceptor
       (ApiClient.responseErrorInterceptor error store).1 config)
  = ApiClient.headers config.
Proof.
  intros Hr Hstatus.
  unfold ApiClient.responseErrorInterceptor, ApiClient.requestInterceptor.
  rewrite Hr, Hstatus. simpl. rewrite lookup_delete_eq. simpl.
  destruct config as [[u|] m hs]; simpl; [| done].
  by destruct (negb (u =? "")%string).
Qed.

Lemma request_unsigned_after_401_witness :
  ApiClient.headers
    (ApiClient.requestInterceptor
       (ApiClient.responseErrorInterceptor unauthorized signedInStore).1
       foldersRequest)
  = ApiClient.headers foldersRequest.
Proof.
  apply (request_unsigned_after_401 unauthorized (ApiClient.mkResponse 401));
    reflexivity.
Defined.

(** ** The upload form *)

Section FormData.

Import ClientHelpers.

Lemma append_assoc (s1 s2 s3 : string) :
  (s1 +:+ s2) +:+ s3 = s1 +:+ (s2 +:+ s3).
Proof.
  induction s1 as [|c s1 IH]; [done |].
  change (String c ((s1 +:+ s2) +:+ s3) = String c (s1 +:+ (s2 +:+ s3))).
  by f_equal.
Qed.

Lemma append_empty_r (s : string) : s +:+ "" = s.
Proof.
  induction s as [|c s IH]; [done |].
  change (String c (s +:+ "") = String c s). by f_equal.
Qed.

Lemma split_nonempty (sep : ascii) (s : string) : split sep s ≠ [].
Proof.
  destruct s as [|c s]; [done |]. simpl.
  destruct (Ascii.eqb c sep); [done |]. by destruct (split sep s).
Qed.

Lemma concat_cons (sep x : string) (l : list string) :
  l ≠ [] → String.concat sep (x :: l) = x +:+ sep +:+ String.concat sep l.
Proof. by destruct l. Qed.

(** Joining the parts with the separator gives the string back. *)
Lemma concat_split (sep : ascii) (s : string) :
  String.concat (String sep EmptyString) (split sep s) = s.
Proof.
  induction s as [|c s IH]; [done |]. simpl.
  destruct (Ascii.eqb_spec c sep) as [-> | Hne].
  - rewrite concat_cons by apply split_nonempty. simpl. by rewrite IH.
  - pose proof (split_nonempty sep s) as Hnil.
    destruct (split sep s) as [|first others]; [done |].
    destruct others as [|second others]; simpl in *.
    + by rewrite IH.
    + by rewrite <- IH.
Qed.

(** No part holds the separator. *)
Lemma split_no_separator (sep : ascii) (s part : string) :
  part ∈ split sep s → sep ∉ list_ascii_of_string part.
Proof.
  revert part. induction s as [|c s IH]; intros part; simpl.
  - intros ->%list_elem_of_singleton. apply not_elem_of_nil.
  - destruct (Ascii.eqb_spec c sep) as [-> | Hne].
    + intros [-> | Hin]%elem_of_cons; [apply not_elem_of_nil | by apply IH].
    + pose proof (split_nonempty sep s) as Hnil.
      destruct (split sep s) as [|first others]; [done |].
      intros [-> | Hin]%elem_of_cons.
      * simpl. intros [-> | Hin]%elem_of_cons; [done |].
        revert Hin. apply IH. apply elem_of_cons. by left.
      * apply IH. apply elem_of_cons. by right.
Qed.

Lemma lastPart_in (parts : list string) :
  parts ≠ [] → lastPart parts ∈ parts.
Proof.
  unfold lastPart. induction parts as [|x [|y parts] IH]; [done | |].
  - intros _. apply elem_of_cons. by left.
  - intros _. apply elem_of_cons. right. by apply IH.
Qed.

(** A joined list is what comes before its last part, then the last
    part; what comes before is empty or ends with the separator. *)
Lemma concat_lastPart (sep : string) (parts : list string) :
  parts ≠ [] →
  ∃ before,
    String.concat sep parts = before +:+ lastPart parts ∧
    (before = "" ∨ ∃ b, before = b +:+ sep).
Proof.
  unfold lastPart. induction parts as [|x [|y parts] IH]; [done | |].
  - intros _. exists "". split; [done | by left].
  - intros _. destruct IH as (before & Heq & Hbefore); [done |].
    exists (x +:+ sep +:+ before). split.
    + change (String.concat sep (x :: y :: parts))
        with (x +:+ sep +:+ String.concat sep (y :: parts)).
      rewrite Heq. by rewrite !append_assoc.
    + right. destruct Hbefore as [-> | (b & ->)].
      * exists x. by rewrite append_empty_r.
      * exists (x +:+ sep +:+ b). by rewrite !append_assoc.
Qed.

End FormData.

Section FileNames.

Import ClientHelpers.

Lemma toLowerChar_idempotent (c : ascii) :
  toLowerChar (toLowerChar c) = toLowerChar c.
Proof. destruct c as [[] [] [] [] [] [] [] []]; by vm_compute. Qed.

(** Lowering a character neither makes nor unmakes a slash or a dot. *)
Lemma toLowerChar_separator (c sep : ascii) :
  sep = "/"%char ∨ sep = "."%char →
  Ascii.eqb (toLowerChar c) sep = Ascii.eqb c sep.
Proof.
  intros [-> | ->]; destruct c as [[] [] [] [] [] [] [] []]; by vm_compute.
Qed.

Lemma toLowerCase_idempotent (s : string) :
  toLowerCase (toLowerCase s) = toLowerCase s.
Proof.
  induction s as [|c s IH]; [done |]. simpl.
  by rewrite toLowerChar_idempotent, IH.
Qed.

Lemma split_toLowerCase (sep : ascii) (s : string) :
  sep = "/"%char ∨ sep = "."%char →
  split sep (toLowerCase s) = toLowerCase <$> split sep s.
Proof.
  intros Hsep. induction s as [|c s IH]; [done |]. simpl.
  rewrite (toLowerChar_separator c sep Hsep), IH.
  destruct (Ascii.eqb c sep); [done |].
  pose proof (split_nonempty sep s) as Hnil.
  by destruct (split sep s).
Qed.

Lemma lastPart_toLowerCase (parts : list string) :
  lastPart (toLowerCase <$> parts) = toLowerCase (lastPart parts).
Proof.
  unfold lastPart. induction parts as [|x [|y parts] IH]; [done | done |].
  exact IH.
Qed.

Lemma fileNameOf_toLowerCase (uri : string) :
  fileNameOf (toLowerCase uri) = toLowerCase (fileNameOf uri).
Proof.
  unfold fileNameOf. rewrite split_toLowerCase by auto.
  apply lastPart_toLowerCase.
Qed.

Lemma fileExtensionOf_toLowerCase (filename : string) :
  fileExtensionOf (toLowerCase filename) = fileExtensionOf filename.
Proof.
  unfold fileExtensionOf. rewrite split_toLowerCase by auto.
  by rewrite lastPart_toLowerCase, toLowerCase_idempotent.
Qed.

Lemma mimeTypeFor_cases (fileExtension : string) :
  mimeTypeFor fileExtension = "image/jpeg" ∨
  mimeTypeFor fileExtension = "image/png" ∨
  mimeTypeFor fileExtension = "image/gif".
Proof.
  unfold mimeTypeFor.
  destruct (String.eqb fileExtension "jpg" || String.eqb fileExtension "jpeg");
    [auto |].
  destruct (String.eqb fileExtension "png"); [auto |].
  destruct (String.eqb fileExtension "gif"); auto.
Qed.

Lemma substring_all (s : string) : substring 0 (String.length s) s = s.
Proof. induction s as [|c s IH]; [done |]. simpl. by rewrite IH. Qed.

End FileNames.

(** Splitting a string at a character and joining the parts with that
    character gives the string back, and no part holds the character:
    [split] loses nothing of the uri it takes the file name from. *)
Theorem split_join_round_trip (sep : ascii) (s : string) :
  String.concat (String sep EmptyString) (ClientHelpers.split sep s) = s ∧
  ∀ part, part ∈ ClientHelpers.split sep s →
          sep ∉ list_ascii_of_string part.
Proof.
  split; [apply concat_split | intros part; apply split_no_separator].
Qed.

(** The file name [createImageFormData] gives the image part is the end of
    the uri, after its last slash: it holds no slash, and what precedes it
    in the uri is empty or ends with a slash. *)
Theorem file_name_is_last_segment (uri : string) :
  ("/"%char ∉ list_ascii_of_string (ClientHelpers.fileNameOf uri)) ∧
  (∃ directory,
     uri = directory +:+ ClientHelpers.fileNameOf uri ∧
     (directory = "" ∨ ∃ d, directory = d +:+ "/")).
Proof.
  unfold ClientHelpers.fileNameOf. split.
  - apply (split_no_separator "/" uri), lastPart_in, split_nonempty.
  - destruct (concat_lastPart "/" (ClientHelpers.split "/" uri)
                (split_nonempty "/" uri)) as (before & Heq & Hbefore).
    exists before. split; [| done].
    rewrite <- Heq. symmetry. apply concat_split.
Qed.

(** The MIME type of the image part is read off the text after the last
    dot of the file name without regard to case, and it is always one of
    [image/jpeg], [image/png] and [image/gif]. *)
Theorem mime_type_ignores_case (uri : string) :
  let mimeOf u :=
    ClientHelpers.mimeTypeFor
      (ClientHelpers.fileExtensionOf (ClientHelpers.fileNameOf u)) in
  mimeOf (ClientHelpers.toLowerCase uri) = mimeOf uri ∧
  (mimeOf uri = "image/jpeg" ∨ mimeOf uri = "image/png" ∨
   mimeOf uri = "image/gif").
Proof.
  cbv zeta. split; [| apply mimeTypeFor_cases].
  by rewrite fileNameOf_toLowerCase, fileExtensionOf_toLowerCase.
Qed.

(** The form [createImageFormData] builds holds the additional fields
    first, in the order given, and then at most one file part: none when
    there is no image or its uri is missing or empty, and otherwise one,
    under the key [image], named after the last segment of the uri and
    typed [image/jpeg], [image/png] or [image/gif]; off iOS it carries the
    uri as it is. *)
Theorem form_fields_then_one_image
    (os : string) (imageData : option Asset)
    (additionalData : list (string * string)) :
  ∃ parts,
    ClientHelpers.createImageFormData os imageData additionalData =
      ((λ kv, (kv.1, ClientHelpers.TextField kv.2)) <$> additionalData)
      ++ parts ∧
    ((parts = [] ∧ JS.truthyStr (imageData ≫= uri) = false) ∨
     (∃ u formattedUri type,
        imageData ≫= uri = Some u ∧ u ≠ "" ∧
        parts = [("image",
                  ClientHelpers.FilePart formattedUri
                    (ClientHelpers.fileNameOf u) type)] ∧
        (type = "image/jpeg" ∨ type = "image/png" ∨ type = "image/gif") ∧
        (os ≠ "ios" → formattedUri = u))).
Proof.
  unfold ClientHelpers.createImageFormData.
  destruct imageData as [img|]; simpl;
    [| exists []; split; [by rewrite app_nil_r | by left]].
  destruct (uri img) as [u|]; simpl;
    [| exists []; split; [by rewrite app_nil_r | by left]].
  destruct (String.eqb_spec u "") as [-> | Hne].
  { exists []. split; [by rewrite app_nil_r | by left]. }
  eexists. split; [reflexivity |]. right.
  eexists u, _, _. split_and!; [done | done | reflexivity | |].
  - apply mimeTypeFor_cases.
  - intros Hos. apply String.eqb_neq in Hos. by rewrite Hos.
Qed.

(** On iOS the uri of the image part loses its leading [file://], while
    its name is still that of the original uri. *)
Theorem ios_strips_file_scheme
    (rest : string) (img : Asset) (additionalData : list (string * string)) :
  uri img = Some ("file://" +:+ rest) →
  ClientHelpers.createImageFormData "ios" (Some img) additionalData =
    ((λ kv, (kv.1, ClientHelpers.TextField kv.2)) <$> additionalData) ++
    [("image",
      ClientHelpers.FilePart rest
        (ClientHelpers.fileNameOf ("file://" +:+ rest))
        (ClientHelpers.mimeTypeFor
           (ClientHelpers.fileExtensionOf
              (ClientHelpers.fileNameOf ("file://" +:+ rest)))))].
Proof.
  intros Huri. unfold ClientHelpers.createImageFormData. rewrite Huri.
  change ("file://" +:+ rest)
    with (String "f" (String "i" (String "l" (String "e" (String ":"
            (String "/" (String "/" rest))))))).
  assert (Hreplace :
    ClientHelpers.replaceFirst "file://" ""
      (String "f" (String "i" (String "l" (String "e" (String ":"
         (String "/" (String "/" rest))))))) = rest).
  { assert (Hprefix : String.prefix "file://"
              (String "f" (String "i" (String "l" (String "e" (String ":"
                 (String "/" (String "/" rest))))))) = true)
      by (by destruct rest).
    unfold ClientHelpers.replaceFirst at 1. rewrite Hprefix.
    change (substring 0 (String.length rest - 0) rest = rest).
    rewrite Nat.sub_0_r. apply substring_all. }
  rewrite Hreplace. reflexivity.
Qed.

Lemma ios_strips_file_scheme_witness :
  ClientHelpers.createImageFormData "ios" (Some smallAsset)
    [("folder_id", "7"); ("name", "Image 1/11/2026, 9:59:58")] =
  [("folder_id", ClientHelpers.TextField "7");
   ("name", ClientHelpers.TextField "Image 1/11/2026, 9:59:58");
   ("image",
    ClientHelpers.FilePart "/cache/photo.jpg" "photo.jpg" "image/jpeg")].
Proof.
  rewrite (ios_strips_file_scheme "/cache/photo.jpg" smallAsset); reflexivity.
Defined.

(** ** Image paths in a response *)

(** Processing the images of a response keeps their number and order,
    records each original path and makes each path absolute; processing
    them a second time leaves the paths as they are, but replaces each
    recorded original by the absolute path. *)
Theorem processImages_paths (images : list ImagesApi.Image) :
  ∃ processed,
    ImagesApi.processImages (Some images) = Some processed ∧
    length processed = length images ∧
    (∀ i image, images !! i = Some image →
       ∃ p, processed !! i = Some p ∧
            ImagesApi.path p =
              ClientHelpers.getFullImagePath (ImagesApi.path image) ∧
            ImagesApi.originalPath p = Some (ImagesApi.path image) ∧
            ImagesApi.path (ImagesApi.withFullPath p) = ImagesApi.path p ∧
            ImagesApi.originalPath (ImagesApi.withFullPath p) =
              Some (ImagesApi.path p)).
Proof.
  eexists. split; [reflexivity |]. split; [by rewrite length_fmap |].
  intros i image Hi. exists (ImagesApi.withFullPath image).
  rewrite list_lookup_fmap, Hi. simpl. split_and!; try done.
  apply getFullImagePath_absolute_again.
Qed.

(** * The session *)

Section Session.

Lemma unsigned_without_token (store : gmap string string)
    (config : ApiClient.Config) :
  JS.truthyStr (store !! "token") = false →
  ApiClient.headers (ApiClient.requestInterceptor store config)
  = ApiClient.headers config.
Proof.
  intros Hnone. unfold ApiClient.requestInterceptor. rewrite Hnone.
  destruct config as [[u|] m hs]; simpl; [| done].
  by destruct (negb (u =? "")%string).
Qed.

End Session.

(** Logging out always ends the session: whether the context held a token
    or not, and whether the logout call succeeds or fails, the context has
    no user and no token afterwards, the secure store has no token, and
    the next request leaves with the headers the caller gave it. *)
Theorem logout_always_clears_session
    (apiLogout : AuthContext.ApiOutcome unit) (st : AuthContext.State)
    (store : gmap string string) (config : ApiClient.Config) :
  let after := AuthContext.handleLogout apiLogout st store in
  AuthContext.user after.1 = None ∧
  AuthContext.token after.1 = None ∧
  after.2 !! "token" = None ∧
  ApiClient.headers (ApiClient.requestInterceptor after.2 config)
  = ApiClient.headers config.
Proof.
  cbv zeta. unfold AuthContext.handleLogout. simpl.
  split_and!; [done | done | apply lookup_delete_eq |].
  apply unsigned_without_token. by rewrite lookup_delete_eq.
Qed.

(** A successful login stores the token it was answered with, and from
    then on a request through the client carries it as bearer token; a
    failed login leaves the context as it was and reports the failure. *)
Theorem login_signs_later_requests
    (response : AuthContext.AuthResponse) (error : ApiClient.AxiosError)
    (st : AuthContext.State) (store : gmap string string)
    (config : ApiClient.Config) :
  AuthContext.response_token response ≠ "" →
  let after := AuthContext.handleLogin (AuthContext.Succeeds response) st store in
  AuthContext.token after.1.1 = Some (AuthContext.response_token response) ∧
  AuthContext.user after.1.1 = Some (AuthContext.response_user response) ∧
  after.1.2 !! "token" = Some (AuthContext.response_token response) ∧
  ApiClient.headers (ApiClient.requestInterceptor after.1.2 config)
    !! "Authorization"
    = Some ("Bearer " +:+ AuthContext.response_token response) ∧
  (AuthContext.handleLogin (AuthContext.Fails error) st store).1.1 = st ∧
  (AuthContext.handleLogin (AuthContext.Fails error) st store).2 = false.
Proof.
  intros Htoken. cbv zeta. unfold AuthContext.handleLogin. simpl.
  split_and!; try done.
  - apply lookup_insert_eq.
  - unfold ApiClient.requestInterceptor. rewrite lookup_insert_eq. simpl.
    apply String.eqb_neq in Htoken. rewrite Htoken. simpl.
    apply lookup_insert_eq.
Qed.

Lemma login_signs_later_requests_witness :
  ApiClient.headers
    (ApiClient.requestInterceptor
       (AuthContext.handleLogin (AuthContext.Succeeds loginResponse)
          AuthContext.initialState ∅).1.2 foldersRequest)
    !! "Authorization" = Some "Bearer 3|kZ8cQpL".
Proof.
  destruct (login_signs_later_requests loginResponse unauthorized
              AuthContext.initialState ∅ foldersRequest)
    as (_ & _ & _ & Hsigned & _); [discriminate |].
  exact Hsigned.
Defined.

(** Restoring a session whose stored token the server rejects with a 401
    clears the secure store but not the context: loading ends with the
    stale token still in the context state, no user, and no token left in
    the store. *)
Theorem rejected_restore_keeps_stale_token
    (error : ApiClient.AxiosError) (r : ApiClient.Response)
    (stored : string) (store : gmap string string) :
  store !! "token" = Some stored →
  stored ≠ "" →
  ApiClient.response error = Some r →
  ApiClient.status r = 401 →
  let after :=
    AuthContext.loadStoredToken (AuthContext.Fails error)
      AuthContext.initialState store in
  AuthContext.token after.1 = Some stored ∧
  AuthContext.user after.1 = None ∧
  AuthContext.loading after.1 = false ∧
  after.2 !! "token" = None.
Proof.
  intros Hstored Hne Hr Hstatus. cbv zeta.
  unfold AuthContext.loadStoredToken, AuthContext.storeAfter,
    ApiClient.responseErrorInterceptor.
  rewrite Hstored. simpl. apply String.eqb_neq in Hne. rewrite Hne. simpl.
  rewrite Hr, Hstatus. simpl. split_and!; try done.
  apply lookup_delete_eq.
Qed.

Lemma rejected_restore_keeps_stale_token_witness :
  let after :=
    AuthContext.loadStoredToken (AuthContext.Fails unauthorized)
      AuthContext.initialState signedInStore in
  AuthContext.token after.1 = Some "3|kZ8cQpL" ∧
  AuthContext.user after.1 = None ∧
  AuthContext.loading after.1 = false ∧
  after.2 !! "token" = None.
Proof.
  apply (rejected_restore_keeps_stale_token unauthorized
           (ApiClient.mkResponse 401) "3|kZ8cQpL" signedInStore);
    (reflexivity || discriminate).
Defined.

(** Loading the stored session always ends the loading state, and without
    a stored token it makes no call and touches neither the context's user
    and token nor the store. *)
Theorem restore_always_ends_loading
    (currentUser : AuthContext.ApiOutcome string) (st : AuthContext.State)
    (store : gmap string string) :
  AuthContext.loading
    (AuthContext.loadStoredToken currentUser st store).1 = false ∧
  (JS.truthyStr (store !! "token") = false →
     AuthContext.loadStoredToken currentUser st store =
       (AuthContext.mkState (AuthContext.user st) (AuthContext.token st) false,
        store)).
Proof.
  unfold AuthContext.loadStoredToken.
  destruct (JS.truthyStr (store !! "token")); [| done].
  by destruct currentUser.
Qed.
